(** * stock-pulse: the tiered market-data layer, embedded in Rocq

    A shallow embedding of the parts of the stock-pulse service that
    decide where market data comes from and when it is persisted:
    - [schemas.py]: [MarketWatchItem], [MarketWatchBestLimit];
    - [database.py]: the SQLite [instruments] table, its transactional
      full replace ([save_market_watch_data]) and its read-back
      ([get_market_watch_from_db], [get_pdv_by_ins_code],
      [get_database_stats]); the [additional_data] table
      ([save_additional_data], [get_additional_data_from_db]);
    - [utils.py]: [is_market_open];
    - [get_market_watch_data.py]: [fetch_market_data], [fetch_merged_data];
    - [main.py]: the [/marketwatch] and [/marketwatch-with-additional-data]
      handlers, one tick of the [/ws/price] loop, [PriceConnectionManager],
      [_backfill_snapshot_async], the two persistence passes and the
      close-time watcher with its startup trigger;
    - [config.py]: the latched [get_redis] accessor.

    Python floats are Rocq primitive floats; they are only copied around,
    never computed with.  Python [int]s are [Z]. *)

From Stdlib Require Import ZArith String Ascii List Bool Floats Lia.
Import ListNotations.
Open Scope Z_scope.

(* ------------------------------------------------------------------ *)
(** ** Data model ([schemas.py]) *)

(** The [pe] field is [Optional[Any]]: in this model the upstream JSON
    gives either an integer or a string there. *)
Inductive pyval :=
| PyInt (z : Z)
| PyStr (s : string).

Record MarketWatchBestLimit := mkBestLimit {
  bl_n : Z; bl_qmd : Z; bl_zmd : Z; bl_pmd : float; bl_pmo : float;
  bl_zmo : Z; bl_qmo : Z; bl_rid : Z }.

Record MarketWatchItem := mkItem {
  lva : string; lvc : string; eps : float; pe : option pyval;
  pmd : float; pmo : float; qtj : float; pdv : float; ztt : float;
  qtc : float; bv : float; pc : float; pcpc : float; pmn : float;
  pmx : float; py : float; pf : float; pcl : float; vc : Z;
  csv : string; insID : string; pMax : float; pMin : float; ztd : float;
  blDs : list MarketWatchBestLimit; id : Z; insCode : string;
  dEven : Z; hEven : Z; pClosing : float; iClose : bool; yClose : bool;
  pDrCotVal : float; zTotTran : float; qTotTran5J : float; qTotCap : float }.

(** [MarketWatchResponse] has the single field [marketwatch]. *)
Definition MarketWatchResponse := list MarketWatchItem.

(* ------------------------------------------------------------------ *)
(** ** Python's [str] on the values that reach the [pe] column *)

Definition digit_char (d : Z) : ascii :=
  ascii_of_nat (48 + Z.to_nat d).

(** Decimal digits of a non-negative integer, most significant first;
    [fuel] bounds the number of digits. *)
Fixpoint digits_of (fuel : nat) (n : Z) (acc : string) : string :=
  match fuel with
  | O => acc
  | S f =>
      let acc' := String (digit_char (n mod 10)) acc in
      if n <? 10 then acc' else digits_of f (n / 10) acc'
  end.

Definition str_of_int (z : Z) : string :=
  if z <? 0 then String "-" (digits_of (Z.to_nat (Z.log2_up (- z) + 1)) (- z) EmptyString)
  else digits_of (Z.to_nat (Z.log2_up z + 1)) z EmptyString.

Definition py_str (v : pyval) : string :=
  match v with
  | PyInt z => str_of_int z
  | PyStr s => s
  end.

(* ------------------------------------------------------------------ *)
(** ** The [instruments] table ([database.py]) *)

(** One stored row, columns in the order of [CREATE TABLE instruments].
    REAL columns hold a float or NULL ([None]), TEXT columns strings,
    INTEGER columns integers; the BOOLEAN columns receive Python
    [bool]s, which [sqlite3] stores as the integers 1 and 0.  [pe] is
    TEXT and NULL-able.  [best_limits_json] is the [json.dumps] text of
    the best limits; the [json.dumps]/[json.loads] pair is exact on these
    records (integers and repr-printed floats, [NaN] included), so the
    column is modelled by the list it encodes. *)
Record row := mkRow {
  r_insCode : string; r_lva : string; r_lvc : string; r_eps : option float;
  r_pe : option string; r_pmd : option float; r_pmo : option float;
  r_qtj : option float; r_pdv : option float; r_ztt : option float;
  r_qtc : option float; r_bv : option float; r_pc : option float;
  r_pcpc : option float; r_pmn : option float; r_pmx : option float;
  r_py : option float; r_pf : option float; r_pcl : option float; r_vc : Z;
  r_csv : string; r_insID : string; r_pMax : option float;
  r_pMin : option float; r_ztd : option float; r_dEven : Z; r_hEven : Z;
  r_pClosing : option float; r_iClose : Z; r_yClose : Z;
  r_pDrCotVal : option float; r_zTotTran : option float;
  r_qTotTran5J : option float; r_qTotCap : option float;
  r_best_limits_json : list MarketWatchBestLimit;
  r_market_type : option string; r_updated_at : string }.

(** Rows in storage (rowid) order. *)
Definition table := list row.

Definition sql_of_bool (b : bool) : Z := if b then 1 else 0.

(** What a REAL column gives back for a non-NaN float: the float
    itself, except that [-0.0] comes back as [0.0] (SQLite writes a
    REAL value without fractional part as an integer, and the integer 0
    has no sign). *)
Definition real_stored (x : float) : float :=
  if PrimFloat.eqb x 0.0%float then 0.0%float else x.

(** A float bound into a REAL column: SQLite stores a NaN as NULL. *)
Definition sql_real (x : float) : option float :=
  if PrimFloat.is_nan x then None else Some (real_stored x).

(** The tuple built by [_upsert_instruments_batch] for one instrument.
    [getattr(inst, 'market_type', None)] is always [None]:
    [MarketWatchItem] declares no such field and pydantic drops the
    extra key.  [now_iso] is the [datetime.now().isoformat()] read for
    this tuple. *)
Definition row_of_item (now_iso : string) (inst : MarketWatchItem) : row :=
  mkRow inst.(insCode) inst.(lva) inst.(lvc) (sql_real inst.(eps))
    (match inst.(pe) with Some v => Some (py_str v) | None => None end)
    (sql_real inst.(pmd)) (sql_real inst.(pmo)) (sql_real inst.(qtj))
    (sql_real inst.(pdv)) (sql_real inst.(ztt)) (sql_real inst.(qtc))
    (sql_real inst.(bv)) (sql_real inst.(pc)) (sql_real inst.(pcpc))
    (sql_real inst.(pmn)) (sql_real inst.(pmx)) (sql_real inst.(py))
    (sql_real inst.(pf)) (sql_real inst.(pcl)) inst.(vc) inst.(csv)
    inst.(insID) (sql_real inst.(pMax)) (sql_real inst.(pMin))
    (sql_real inst.(ztd)) inst.(dEven) inst.(hEven)
    (sql_real inst.(pClosing))
    (sql_of_bool inst.(iClose)) (sql_of_bool inst.(yClose))
    (sql_real inst.(pDrCotVal)) (sql_real inst.(zTotTran))
    (sql_real inst.(qTotTran5J)) (sql_real inst.(qTotCap))
    inst.(blDs) None now_iso.

(** The loop of [_upsert_instruments_batch]: [clock i] is the value of
    [datetime.now().isoformat()] read for the [i]-th instrument, so each
    tuple carries its own timestamp. *)
Fixpoint rows_from (clock : nat -> string) (i : nat) (instruments : list MarketWatchItem)
    : list row :=
  match instruments with
  | [] => []
  | inst :: rest => row_of_item (clock i) inst :: rows_from clock (S i) rest
  end.

Definition upsert_rows (clock : nat -> string) (instruments : list MarketWatchItem) : list row :=
  rows_from clock 0 instruments.

(** The instruments numbered from [i], and the tuple built for a
    numbered one: the same rows as [rows_from], in a form that keeps
    the number beside the record. *)
Fixpoint enum_from {A : Type} (i : nat) (l : list A) : list (nat * A) :=
  match l with
  | [] => []
  | x :: l' => (i, x) :: enum_from (S i) l'
  end.

Definition stamped_row (clock : nat -> string) (p : nat * MarketWatchItem) : row :=
  row_of_item (clock (fst p)) (snd p).

(** [INSERT ... ON CONFLICT(insCode) DO UPDATE SET ...]: a row whose
    [insCode] is already stored overwrites every other column of that
    row in place; otherwise it is appended.  Written over any list keyed
    by a string, so that it also applies to the records upserted. *)
Fixpoint upsert_by {A : Type} (key : A -> string) (t : list A) (r : A) : list A :=
  match t with
  | [] => [r]
  | r0 :: t' =>
      if String.eqb (key r0) (key r) then r :: t'
      else r0 :: upsert_by key t' r
  end.

Definition upsert_row : table -> row -> table := upsert_by r_insCode.

(** The records the upsert keeps, with their numbers. *)
Definition kept_records (data : list MarketWatchItem) : list (nat * MarketWatchItem) :=
  fold_left (upsert_by (fun p => (snd p).(insCode))) (enum_from 0 data) [].

(** Where a statement of the transaction raises. *)
Inductive fault :=
| NoFault
| FailConnect          (* [sqlite3.connect] itself, outside the [try] *)
| FailBegin
| FailDelete
| FailInsertAt (k : nat) (* [executemany] raises before its k-th row *)
| FailCommit.

(** [cursor.executemany] over the rows, on the transaction's working
    copy; [None] when it raises. *)
Fixpoint executemany (k : option nat) (rows : list row) (t : table) : option table :=
  match rows, k with
  | [], _ => Some t
  | _ :: _, Some O => None
  | r :: rows', _ =>
      executemany (match k with Some (S k') => Some k' | _ => k end)
        rows' (upsert_row t r)
  end.

(** Outcome of a Python call: a value or a raised exception. *)
Inductive result (A : Type) :=
| Ok (a : A)
| Raise.
Arguments Ok {A} a.
Arguments Raise {A}.

(** [MarketWatchDB.save_market_watch_data]: the returned count and the
    committed table afterwards.  Inside the transaction the working copy
    is modified; [conn.commit()] publishes it, [conn.rollback()] drops it.
    [clock] gives the timestamps of the tuples. *)
Definition save_market_watch_data (f : fault) (clock : nat -> string)
    (data : MarketWatchResponse) (db : table) : result Z * table :=
  let new_count := Z.of_nat (length data) in
  if new_count =? 0 then (Ok 0, db)
  else
    match f with
    | FailConnect => (Raise, db)
    | FailBegin | FailDelete | FailCommit => (Ok 0, db)
    | _ =>
        let work := [] in (* DELETE FROM instruments *)
        let k := match f with FailInsertAt k => Some k | _ => None end in
        match executemany k (upsert_rows clock data) work with
        | Some t' => (Ok new_count, t')
        | None => (Ok 0, db)
        end
    end.

(** The table committed by a transaction whose [executemany] ran to the
    end: the rows upserted one after the other into the emptied table. *)
Definition replace_all (rows : list row) : table := fold_left upsert_row rows [].

(* ------------------------------------------------------------------ *)
(** ** Sample values *)

Definition bl0 : MarketWatchBestLimit := mkBestLimit 1 10 2 100.5 101.0 3 20 0.

(** An instrument record as the upstream sends it, up to the values. *)
Definition sample_item (code : string) (ident : Z) (p : float) : MarketWatchItem :=
  mkItem "ABC" "ABC Co." 12.0 (Some (PyInt 7)) 100.0 101.0 5.0 p 10.0 1000.0
    0.0 99.0 0.5 95.0 105.0 98.0 97.0 99.5 1 "IRO1ABC" "IRO1ABC0001"
    110.0 90.0 20.0 [bl0] ident code 20240101 123000 99.0 false false
    1.5 10.0 1000.0 1000000.0.

(* ------------------------------------------------------------------ *)
(** ** Reading the table back ([database.py]) *)

(** Pydantic's [bool] validation of the integer read from a BOOLEAN
    column: 0 and 1 are accepted, anything else raises. *)
Definition validate_bool (z : Z) : result bool :=
  if z =? 0 then Ok false else if z =? 1 then Ok true else Raise.

(** Sequencing of fallible steps: the first exception propagates. *)
Definition rbind {A B : Type} (r : result A) (k : A -> result B) : result B :=
  match r with Ok a => k a | Raise => Raise end.

Notation "x <- r ;; k" := (rbind r (fun x => k))
  (at level 61, r at next level, right associativity).

(** Pydantic's [float] validation of a value read from a REAL column:
    NULL ([None]) raises. *)
Definition validate_float (v : option float) : result float :=
  match v with Some x => Ok x | None => Raise end.

(** One iteration of the loop of [get_market_watch_from_db]: the
    [MarketWatchItem(...)] built from a row, with [id=0] and [pe] as the
    TEXT read from its column; it raises when a field fails validation. *)
Definition item_of_row (r : row) : result MarketWatchItem :=
  eps <- validate_float r.(r_eps) ;;
  pmd <- validate_float r.(r_pmd) ;; pmo <- validate_float r.(r_pmo) ;;
  qtj <- validate_float r.(r_qtj) ;; pdv <- validate_float r.(r_pdv) ;;
  ztt <- validate_float r.(r_ztt) ;; qtc <- validate_float r.(r_qtc) ;;
  bv <- validate_float r.(r_bv) ;; pc <- validate_float r.(r_pc) ;;
  pcpc <- validate_float r.(r_pcpc) ;; pmn <- validate_float r.(r_pmn) ;;
  pmx <- validate_float r.(r_pmx) ;; py <- validate_float r.(r_py) ;;
  pf <- validate_float r.(r_pf) ;; pcl <- validate_float r.(r_pcl) ;;
  pMax <- validate_float r.(r_pMax) ;; pMin <- validate_float r.(r_pMin) ;;
  ztd <- validate_float r.(r_ztd) ;; pClosing <- validate_float r.(r_pClosing) ;;
  iClose <- validate_bool r.(r_iClose) ;; yClose <- validate_bool r.(r_yClose) ;;
  pDrCotVal <- validate_float r.(r_pDrCotVal) ;;
  zTotTran <- validate_float r.(r_zTotTran) ;;
  qTotTran5J <- validate_float r.(r_qTotTran5J) ;;
  qTotCap <- validate_float r.(r_qTotCap) ;;
  Ok (mkItem r.(r_lva) r.(r_lvc) eps
        (match r.(r_pe) with Some s => Some (PyStr s) | None => None end)
        pmd pmo qtj pdv ztt qtc bv pc pcpc pmn pmx py pf pcl r.(r_vc) r.(r_csv)
        r.(r_insID) pMax pMin ztd r.(r_best_limits_json) 0 r.(r_insCode)
        r.(r_dEven) r.(r_hEven) pClosing iClose yClose pDrCotVal zTotTran
        qTotTran5J qTotCap).

(** [MarketWatchDB.get_market_watch_from_db]: the table scanned in
    storage order, one item per row. *)
Fixpoint get_market_watch_from_db (t : table) : result MarketWatchResponse :=
  match t with
  | [] => Ok []
  | r :: t' =>
      match item_of_row r, get_market_watch_from_db t' with
      | Ok x, Ok xs => Ok (x :: xs)
      | _, _ => Raise
      end
  end.

(** [MarketWatchDB.get_pdv_by_ins_code]: lookup by primary key; a
    NULL [pdv] is returned as [None], like a missing row. *)
Fixpoint get_pdv_by_ins_code (t : table) (code : string) : option float :=
  match t with
  | [] => None
  | r :: t' => if String.eqb r.(r_insCode) code then r.(r_pdv)
               else get_pdv_by_ins_code t' code
  end.

(** The float fields of a record. *)
Definition item_floats (x : MarketWatchItem) : list float :=
  [x.(eps); x.(pmd); x.(pmo); x.(qtj); x.(pdv); x.(ztt); x.(qtc); x.(bv);
   x.(pc); x.(pcpc); x.(pmn); x.(pmx); x.(py); x.(pf); x.(pcl); x.(pMax);
   x.(pMin); x.(ztd); x.(pClosing); x.(pDrCotVal); x.(zTotTran);
   x.(qTotTran5J); x.(qTotCap)].

(** No float field of the record is NaN. *)
Definition no_nan (x : MarketWatchItem) : bool :=
  forallb (fun v => negb (PrimFloat.is_nan v)) (item_floats x).

(** What a record without NaN looks like after a trip through the
    table: [id] is not stored and comes back as 0, [pe] comes back as
    its [str()] text, a [-0.0] float as [0.0]; every other field is
    copied. *)
Definition stored_view (x : MarketWatchItem) : MarketWatchItem :=
  mkItem x.(lva) x.(lvc) (real_stored x.(eps))
    (match x.(pe) with Some v => Some (PyStr (py_str v)) | None => None end)
    (real_stored x.(pmd)) (real_stored x.(pmo)) (real_stored x.(qtj))
    (real_stored x.(pdv)) (real_stored x.(ztt)) (real_stored x.(qtc))
    (real_stored x.(bv)) (real_stored x.(pc)) (real_stored x.(pcpc))
    (real_stored x.(pmn)) (real_stored x.(pmx)) (real_stored x.(py))
    (real_stored x.(pf)) (real_stored x.(pcl)) x.(vc) x.(csv) x.(insID)
    (real_stored x.(pMax)) (real_stored x.(pMin)) (real_stored x.(ztd))
    x.(blDs) 0 x.(insCode) x.(dEven) x.(hEven) (real_stored x.(pClosing))
    x.(iClose) x.(yClose) (real_stored x.(pDrCotVal)) (real_stored x.(zTotTran))
    (real_stored x.(qTotTran5J)) (real_stored x.(qTotCap)).

(** The last record of a snapshot carrying a given [insCode]. *)
Definition last_with (code : string) (data : MarketWatchResponse) : option MarketWatchItem :=
  fold_left (fun acc y => if String.eqb y.(insCode) code then Some y else acc) data None.

(** Row lookup by [insCode]. *)
Definition lookup_row (code : string) (t : table) : option row :=
  find (fun r => String.eqb r.(r_insCode) code) t.

(* ------------------------------------------------------------------ *)
(** ** The market clock ([config.py], [utils.py]) *)

(** [datetime.time]: hour, minute, second, microsecond. *)
Record time := mkTime { hour : Z; minute : Z; second : Z; microsecond : Z }.

Definition MARKET_OPEN_TIME : time := mkTime 9 0 0 0.
Definition MARKET_CLOSE_TIME : time := mkTime 12 30 0 0.

(** [weekday()]: Monday is 0, Sunday is 6. *)
Definition TRADING_DAYS : list Z := [0; 1; 2; 5; 6].

(** Python compares [time]s field by field. *)
Definition time_le (a b : time) : bool :=
  match Z.compare a.(hour) b.(hour) with
  | Lt => true | Gt => false
  | Eq =>
      match Z.compare a.(minute) b.(minute) with
      | Lt => true | Gt => false
      | Eq =>
          match Z.compare a.(second) b.(second) with
          | Lt => true | Gt => false
          | Eq => a.(microsecond) <=? b.(microsecond)
          end
      end
  end.

Definition us_per_second : Z := 1000000.
Definition us_per_day : Z := 86400 * us_per_second.

(** A wall-clock reading is counted in microseconds from
    0001-01-01 00:00, Python's ordinal day 1. *)
Definition toordinal (w : Z) : Z := w / us_per_day + 1.
Definition weekday (w : Z) : Z := (toordinal w + 6) mod 7.

(** [.time()] of a wall-clock reading. *)
Definition time_of (w : Z) : time :=
  let u := w mod us_per_day in
  let q1 := u / us_per_second in
  let q2 := q1 / 60 in
  mkTime (q2 / 60) (q2 mod 60) (q1 mod 60) (u mod us_per_second).

(** The [tzinfo] of an aware datetime: the [TEHRAN_TZ] object itself,
    or any other zone, with the UTC offset (microseconds) it gives. *)
Inductive tzinfo :=
| TEHRAN_TZ_obj
| OtherTZ (offset : Z).

(** The argument of [is_market_open]: wall-clock reading, and its
    [tzinfo] when aware. *)
Inductive datetime :=
| Naive (wall : Z)
| Aware (wall : Z) (tz : tzinfo).

Section Clock.
(** UTC offset of Asia/Tehran at a UTC instant, from pytz's zone data. *)
Variable tehran_offset : Z -> Z.

(** The localisation/conversion step of [is_market_open]:
    [TEHRAN_TZ.localize] keeps a naive wall clock, a datetime whose
    [tzinfo] is [TEHRAN_TZ] is kept, anything else goes through
    [astimezone(TEHRAN_TZ)]. *)
Definition to_tehran (t : datetime) : Z :=
  match t with
  | Naive w => w
  | Aware w TEHRAN_TZ_obj => w
  | Aware w (OtherTZ off) => let u := w - off in u + tehran_offset u
  end.

Definition is_market_open (check_time : datetime) : bool :=
  let w := to_tehran check_time in
  if negb (existsb (Z.eqb (weekday w)) TRADING_DAYS) then false
  else
    let current_time := time_of w in
    time_le MARKET_OPEN_TIME current_time && time_le current_time MARKET_CLOSE_TIME.
End Clock.

(** Microsecond of the day of a wall-clock reading, and the two bounds
    of the trading window in the same unit. *)
Definition tod_us (w : Z) : Z := w mod us_per_day.
Definition open_us : Z := 9 * 3600 * us_per_second.
Definition close_us : Z := (12 * 3600 + 30 * 60) * us_per_second.

(* ------------------------------------------------------------------ *)
(** ** The upstream fetch ([get_market_watch_data.py]) *)

(** A decoded JSON object, keys in insertion order. *)
Definition dict := list (string * pyval).

(** [d[k] = v]: an existing key keeps its place, a new one is appended. *)
Definition dict_set (d : dict) (k : string) (v : pyval) : dict :=
  upsert_by fst d (k, v).

(** What the HTTP exchange of one segment gives: a 2xx response with
    its decoded body ([None] when the body is falsy or has no
    [marketwatch] key), a 2xx response on which decoding or the tagging
    loop raises (a body that is not JSON, a truthy body that is not an
    object and so has no [.get], a [marketwatch] that is [null] or is not
    a list of objects), an error status ([raise_for_status] raises), or
    the 30 s timeout. *)
Inductive http_outcome :=
| HttpOk (marketwatch : option (list dict))
| HttpMalformed
| HttpError (status : Z)
| HttpTimeout.

(** [_extract_items]. *)
Definition _extract_items (body : option (list dict)) : list dict :=
  match body with Some items => items | None => [] end.

(** [fetch_market_data]: the segment's items, each tagged with its
    market type. *)
Definition fetch_market_data (o : http_outcome) (market_type : string) : result (list dict) :=
  match o with
  | HttpOk body =>
      Ok (map (fun item => dict_set item "market_type" (PyStr market_type))
              (_extract_items body))
  | HttpMalformed | HttpError _ | HttpTimeout => Raise
  end.

(** [asyncio.gather] without [return_exceptions]: the list of results
    when every task returns, otherwise the first exception propagates
    and the other results are dropped. *)
Fixpoint gather {A : Type} (rs : list (result A)) : result (list A) :=
  match rs with
  | [] => Ok []
  | Ok a :: rs' => match gather rs' with Ok l => Ok (a :: l) | Raise => Raise end
  | Raise :: _ => Raise
  end.

(** [fetch_merged_data]: one task per [(market_type, url)] of
    [urls_dict], here given with the outcome of its request; the items
    of all segments flattened in [urls_dict] order. *)
Definition fetch_merged_data (urls_dict : list (string * http_outcome)) : result (list dict) :=
  match gather (map (fun '(market_type, o) => fetch_market_data o market_type) urls_dict) with
  | Ok results => Ok (fold_left (fun all_items items => all_items ++ items) results [])
  | Raise => Raise
  end.

(** The two segments of [MARKETWATCH_URLS]. *)
Definition MARKETWATCH_SEGMENTS (stock base : http_outcome) : list (string * http_outcome) :=
  [("stock_market"%string, stock); ("base_market"%string, base)].

(** [n] upstream records with distinct codes. *)
Definition sample_records (n : nat) : list dict :=
  map (fun k => [("insCode"%string, PyInt (Z.of_nat k))]) (seq 0 n).

(* ------------------------------------------------------------------ *)
(** ** Hot cache and handlers ([main.py]) *)

(** Outcome of [await r.get(key)] on the Redis client. *)
Inductive cache_get :=
| CacheValue (s : string)
| CacheNone
| CacheError.

(** The calls a request makes, in order. *)
Inductive call :=
| CallGetRedis
| CallCacheGet (key : string)
| CallFetchMerged
| CallDbRead
| SpawnBackfill.

Section Handlers.
(** UTC offset of Asia/Tehran, as for [is_market_open]. *)
Variable tehran_offset : Z -> Z.
(** [MarketWatchResponse] validated from [json.loads(blob)]: raises on
    a blob that is not JSON or does not validate. *)
Variable decode_snapshot : string -> result MarketWatchResponse.
(** [MarketWatchResponse] validated from the merged upstream items. *)
Variable validate_items : list dict -> result MarketWatchResponse.

(** The [/marketwatch] handler [get_market_watch]: [redis_up] is
    whether [get_redis()] gave a client, [snap] the outcome of its [get]
    of ["mw:snapshot"], [now] the current time, [segments] the upstream
    outcomes and [db] the stored table.  The result is the response, or
    [Raise] for the [HTTPException(500)]; the list is the calls made. *)
Definition get_market_watch (redis_up : bool) (snap : cache_get) (now : datetime)
    (segments : list (string * http_outcome)) (db : table)
    : result MarketWatchResponse * list call :=
  let cached :=
    if redis_up then
      match snap with
      | CacheValue blob =>
          if String.eqb blob "" then None
          else match decode_snapshot blob with Ok r => Some r | Raise => None end
      | CacheNone | CacheError => None
      end
    else None in
  let pre := CallGetRedis :: (if redis_up then [CallCacheGet "mw:snapshot"] else []) in
  match cached with
  | Some r => (Ok r, pre)
  | None =>
      if is_market_open tehran_offset now then
        match fetch_merged_data segments with
        | Ok items =>
            match validate_items items with
            | Ok mw_resp => (Ok mw_resp, pre ++ [CallFetchMerged; SpawnBackfill])
            | Raise => (Raise, pre ++ [CallFetchMerged])
            end
        | Raise => (Raise, pre ++ [CallFetchMerged])
        end
      else
        match get_market_watch_from_db db with
        | Ok mw_resp => (Ok mw_resp, pre ++ [CallDbRead; SpawnBackfill])
        | Raise => (Raise, pre ++ [CallDbRead])
        end
  end.

(** [float(v)] on a cached string: [None] when it raises. *)
Variable parse_float : string -> option float.
(** [int(ins_code)]: [None] when it raises [ValueError]. *)
Variable parse_int : string -> option Z.

(** Outcome of [get_price(ins_code_int)]: the [pDrCotVal] of the
    upstream record, or an exception (status other than 200, missing
    key, timeout). *)
Inductive price_outcome :=
| PriceOk (v : float)
| PriceRaise.

(** The value read from a cache key by the tick: [None] when Redis is
    down, the key is missing, the [get] raises or [float(v)] raises. *)
Definition cached_float (redis_up : bool) (v : cache_get) : option float :=
  if redis_up then
    match v with CacheValue s => parse_float s | CacheNone | CacheError => None end
  else None.

(** One iteration of the [price_websocket] loop, after the
    [ins_code_int = int(ins_code)] that precedes the loop: the value
    sent, or the exception that ends the session (a [ValueError] of
    [int()] ends it before anything is sent).  [open_] is
    [is_market_open()], [cache] the outcome of [r.get] per key, [price]
    the outcome of [get_price(ins_code_int)]. *)
Definition price_tick (open_ : bool) (redis_up : bool) (cache : string -> cache_get)
    (ins_code : string) (price : price_outcome) (db : table) : result float :=
  match parse_int ins_code with
  | None => Raise
  | Some _ =>
  if open_ then
    match cached_float redis_up (cache ("mw:inst:" ++ ins_code ++ ":price")%string) with
    | Some v => Ok v
    | None => match price with PriceOk v => Ok v | PriceRaise => Raise end
    end
  else
    match cached_float redis_up (cache ("mw:inst:" ++ ins_code ++ ":pdv")%string) with
    | Some v => Ok v
    | None =>
        match get_pdv_by_ins_code db ins_code with
        | Some v => Ok v
        | None => Ok 0.0%float
        end
    end
  end.
End Handlers.

(** The hot cache has nothing usable under ["mw:snapshot"]. *)
Definition snapshot_cache_miss (redis_up : bool) (snap : cache_get) : Prop :=
  redis_up = false \/ snap = CacheNone \/ snap = CacheError.

(** The hot cache has no value under a key read by the tick. *)
Definition key_cache_miss (redis_up : bool) (v : cache_get) : Prop :=
  redis_up = false \/ v = CacheNone \/ v = CacheError.

(* ------------------------------------------------------------------ *)
(** ** The close-time watcher ([main.py]) *)

(** [app.state]: the scheduler's process-wide state. *)
Record ScheduleState := mkSchedule {
  _last_market_open : option bool;
  _last_snapshot_date : option Z (* ordinal of the Tehran date *) }.

(** Set by [lifespan] at process start. *)
Definition initial_schedule : ScheduleState := mkSchedule None None.

(** What one persistence pass meets: the upstream outcomes, the fault
    of the write, the clock read by the write. *)
Record pass_inputs := mkPass {
  pi_segments : list (string * http_outcome);
  pi_fault : fault;
  pi_clock : nat -> string }.

Section Watcher.
Variable validate_items : list dict -> result MarketWatchResponse.

(** [_save_snapshot_if_valid]: the stored table after the pass.  Every
    [Exception] (fetch error, [asyncio.TimeoutError], validation error,
    write error) is printed and swallowed; the write's return value is
    ignored.  Its best-effort Redis caching touches neither the table
    nor the schedule and is left out. *)
Definition _save_snapshot_if_valid (i : pass_inputs) (db : table) : table :=
  match fetch_merged_data i.(pi_segments) with
  | Raise => db
  | Ok items =>
      match validate_items items with
      | Raise => db
      | Ok mw => snd (save_market_watch_data i.(pi_fault) i.(pi_clock) mw db)
      end
  end.

(** One wake-up of the [while True] loop of [_market_close_watcher],
    after its sleep: [now] is the Tehran wall clock read on waking.  The
    list holds one [tt] per persistence pass run
    ([_save_snapshot_if_valid] then [_save_additional_data_if_valid]). *)
Definition watcher_wake (st : ScheduleState) (db : table) (now : Z) (i : pass_inputs)
    : ScheduleState * table * list unit :=
  let today := toordinal now in
  match st.(_last_snapshot_date) with
  | Some d => if d =? today then (st, db, []) else
      (mkSchedule st.(_last_market_open) (Some today), _save_snapshot_if_valid i db, [tt])
  | None =>
      (mkSchedule st.(_last_market_open) (Some today), _save_snapshot_if_valid i db, [tt])
  end.
End Watcher.

(** The instant the loop sleeps until: today's 12:30 when [now] is
    before it, otherwise the next day's ([target_close += timedelta(days=1)]). *)
Definition next_close (now : Z) : Z :=
  let target_close := now / us_per_day * us_per_day + close_us in
  if now >=? target_close then target_close + us_per_day else target_close.

(* ------------------------------------------------------------------ *)
(** ** The latched Redis accessor ([config.py]) *)

(** The module globals [_redis] (a client, named by the call that
    created it) and [_redis_available]. *)
Record redis_globals := mkGlobals {
  _redis : option nat;
  _redis_available : option bool }.

(** Where a [get_redis()] call is.  [redis.from_url] builds the client
    without suspending ([initialize] does no I/O for a pooled client);
    [await _redis.ping()] is the one suspension point. *)
Inductive gr_pc :=
| GStart
| GAwaitPing (c : nat)
| GDone (ret : option nat).

(** The event loop's view: the globals, every [get_redis()] call made so
    far (by index), and the number of [redis.from_url] attempts. *)
Record redis_system := mkSystem {
  globals : redis_globals;
  calls : list gr_pc;
  attempts : nat }.

Definition redis_init : redis_system := mkSystem (mkGlobals None None) [] 0.

Fixpoint replace_nth {A : Type} (l : list A) (i : nat) (x : A) : list A :=
  match l, i with
  | [], _ => []
  | _ :: l', O => x :: l'
  | y :: l', S i' => y :: replace_nth l' i' x
  end.

(** [_redis_available is False]. *)
Definition option_eq_false (o : option bool) : bool :=
  match o with Some false => true | _ => false end.

Section GetRedis.
Variable REDIS_ENABLED : bool.

(** Run call [i] up to its next suspension point or its return; [ok] is
    whether [from_url] (at the start) or [ping] (when resumed) succeeds. *)
Definition get_redis_step (s : redis_system) (i : nat) (ok : bool) : redis_system :=
  let g := s.(globals) in
  match nth_error s.(calls) i with
  | Some GStart =>
      if negb REDIS_ENABLED then mkSystem g (replace_nth s.(calls) i (GDone None)) s.(attempts)
      else if option_eq_false g.(_redis_available) then
        mkSystem g (replace_nth s.(calls) i (GDone None)) s.(attempts)
      else match g.(_redis) with
      | Some c => mkSystem g (replace_nth s.(calls) i (GDone (Some c))) s.(attempts)
      | None =>
          if ok then mkSystem (mkGlobals (Some i) g.(_redis_available))
                       (replace_nth s.(calls) i (GAwaitPing i)) (S s.(attempts))
          else mkSystem (mkGlobals None (Some false))
                 (replace_nth s.(calls) i (GDone None)) (S s.(attempts))
      end
  | Some (GAwaitPing _) =>
      if ok then mkSystem (mkGlobals g.(_redis) (Some true))
                   (replace_nth s.(calls) i (GDone g.(_redis))) s.(attempts)
      else mkSystem (mkGlobals None (Some false))
             (replace_nth s.(calls) i (GDone None)) s.(attempts)
  | Some (GDone _) | None => s
  end.

(** A scheduling step of the event loop: a new [get_redis()] call
    begins, or call [i] runs with outcome [ok]. *)
Inductive redis_action :=
| NewCall
| Run (i : nat) (ok : bool).

Definition redis_act (s : redis_system) (a : redis_action) : redis_system :=
  match a with
  | NewCall => mkSystem s.(globals) (s.(calls) ++ [GStart]) s.(attempts)
  | Run i ok => get_redis_step s i ok
  end.

Definition redis_run (s : redis_system) (acts : list redis_action) : redis_system :=
  fold_left redis_act acts s.

(** Running call [i] with a failing outcome makes it fail: its [ping]
    fails, or its [from_url] raises. *)
Definition call_fails (s : redis_system) (i : nat) : bool :=
  match nth_error s.(calls) i with
  | Some (GAwaitPing _) => true
  | Some GStart =>
      REDIS_ENABLED && negb (option_eq_false s.(globals).(_redis_available))
      && match s.(globals).(_redis) with None => true | Some _ => false end
  | _ => false
  end.
End GetRedis.

(* ------------------------------------------------------------------ *)
(** ** Auxiliary definitions for the proofs *)

Definition time_key (t : time) : Z :=
  ((t.(hour) * 60 + t.(minute)) * 60 + t.(second)) * us_per_second + t.(microsecond).

Definition time_in_range (t : time) : Prop :=
  0 <= t.(minute) < 60 /\ 0 <= t.(second) < 60 /\ 0 <= t.(microsecond) < us_per_second.

(** Tehran's offset since 2022 (+03:30), in microseconds. *)
Definition tehran_fixed_offset (_ : Z) : Z := 12600 * us_per_second.

(** 2021-09-13 (ordinal 738046) at 12:30 Tehran time. *)
Definition sample_close_instant : Z := 738045 * us_per_day + close_us.

(** The call awaiting its [ping], if any, is the one whose client is
    in [_redis]. *)
Definition redis_inv (s : redis_system) : Prop :=
  forall j c, nth_error s.(calls) j = Some (GAwaitPing c) ->
    c = j /\ s.(globals).(_redis) = Some c.

(** The latch is set and no call is awaiting its [ping]. *)
Definition redis_latched (s : redis_system) : Prop :=
  s.(globals).(_redis_available) = Some false /\ s.(globals).(_redis) = None /\
  forall j c, nth_error s.(calls) j <> Some (GAwaitPing c).

(** A call that has not started yet, or has returned [None]. *)
Definition fresh_or_none (o : option gr_pc) : Prop :=
  o = None \/ o = Some GStart \/ o = Some (GDone None).

(* ------------------------------------------------------------------ *)
(** ** The startup trigger of the watcher ([main.py]) *)

(** The startup part of [_market_close_watcher]: [_last_market_open] is
    set to [is_market_open()], and when the market is closed one
    persistence pass is spawned ([asyncio.create_task] of
    [_save_snapshot_if_valid] and [_save_additional_data_if_valid]).
    [_last_snapshot_date] is not touched. *)
Definition watcher_startup (tehran_offset : Z -> Z) (st : ScheduleState) (now : datetime)
    : ScheduleState * list unit :=
  let open_ := is_market_open tehran_offset now in
  (mkSchedule (Some open_) st.(_last_snapshot_date), if open_ then [] else [tt]).

(* ------------------------------------------------------------------ *)
(** ** The [additional_data] table ([database.py]) *)

(** A value of a [Dict[str, Any]] item as [sqlite3] binds it: an
    integer, a string or [None]. *)
Inductive aval :=
| AInt (z : Z)
| AText (s : string)
| ANull.

(** A dict item; its keys are distinct, as in a Python dict. *)
Definition adict := list (string * aval).

(** [item.get(k, default)]. *)
Definition adict_get (d : adict) (k : string) (default : aval) : aval :=
  match find (fun p => String.eqb (fst p) k) d with
  | Some (_, v) => v
  | None => default
  end.

(** The ten count columns, in the order of the [INSERT]. *)
Definition additional_columns : list string :=
  ["buy_I_Volume"; "buy_N_Volume"; "buy_DDD_Volume"; "buy_CountI"; "buy_CountN";
   "buy_CountDDD"; "sell_I_Volume"; "sell_N_Volume"; "sell_CountI"; "sell_CountN"]%string.

(** A stored row: the [insCode] column, the ten counts, [updated_at]. *)
Record additional_row := mkAddRow {
  a_insCode : aval;
  a_counts : list aval;
  a_updated_at : string }.

Section AdditionalData.
(** SQLite's INTEGER affinity on a text value: the integer it denotes
    when the conversion is lossless, [None] when the text is kept. *)
Variable int_of_text : string -> option Z.

(** TEXT affinity: an integer is stored as its decimal text. *)
Definition text_affinity (v : aval) : aval :=
  match v with AInt z => AText (str_of_int z) | _ => v end.

Definition integer_affinity (v : aval) : aval :=
  match v with
  | AText s => match int_of_text s with Some z => AInt z | None => v end
  | _ => v
  end.

(** The tuple built by [save_additional_data] for one item, after the
    column affinities. *)
Definition additional_row_of (now_iso : string) (item : adict) : additional_row :=
  mkAddRow (text_affinity (adict_get item "insCode" ANull))
    (map (fun k => integer_affinity (adict_get item k (AInt 0))) additional_columns)
    now_iso.

(** A plain [INSERT] into a table whose [insCode] is the primary key:
    a non-NULL key already stored raises [IntegrityError]; NULL keys
    never collide. *)
Definition insert_additional (t : list additional_row) (r : additional_row)
    : option (list additional_row) :=
  match r.(a_insCode) with
  | ANull => Some (t ++ [r])
  | k => if existsb (fun r0 => match r0.(a_insCode), k with
                               | AText a, AText b => String.eqb a b
                               | _, _ => false end) t
         then None else Some (t ++ [r])
  end.

Fixpoint executemany_insert (rows : list additional_row) (t : list additional_row)
    : option (list additional_row) :=
  match rows with
  | [] => Some t
  | r :: rows' =>
      match insert_additional t r with
      | Some t' => executemany_insert rows' t'
      | None => None
      end
  end.

(** Where a statement of [save_additional_data] raises, apart from a
    key collision. *)
Inductive add_fault :=
| ANoFault
| AFailConnect
| AFailDelete
| AFailInsert
| AFailCommit.

(** [MarketWatchDB.save_additional_data]: the count returned (or the
    re-raised exception) and the committed table.  The [DELETE] opens
    [sqlite3]'s implicit transaction; on any exception it is rolled back
    and the exception re-raised. *)
Definition save_additional_data (f : add_fault) (now_iso : string) (additional_data : list adict)
    (t : list additional_row) : result Z * list additional_row :=
  match additional_data with
  | [] => (Ok 0, t)
  | _ =>
      match f with
      | AFailConnect | AFailDelete | AFailInsert | AFailCommit => (Raise, t)
      | ANoFault =>
          let rows := map (additional_row_of now_iso) additional_data in
          match executemany_insert rows [] with
          | Some t' => (Ok (Z.of_nat (length rows)), t')
          | None => (Raise, t)
          end
      end
  end.
End AdditionalData.

(** [MarketWatchDB.get_additional_data_from_db]:
    [dict(zip(columns, row))] for every row, in storage order. *)
Definition get_additional_data_from_db (t : list additional_row) : list adict :=
  map (fun r => ("insCode"%string, r.(a_insCode)) :: combine additional_columns r.(a_counts)) t.

(** How an item reads back from [additional_data] when its counts are
    integers or [None]: its [insCode] through the TEXT affinity, a
    missing count as 0, the other keys dropped. *)
Definition additional_view (item : adict) : adict :=
  ("insCode"%string, text_affinity (adict_get item "insCode" ANull))
    :: map (fun k => (k, adict_get item k (AInt 0))) additional_columns.

Definition is_text (v : aval) : bool :=
  match v with AText _ => true | _ => false end.

(* ------------------------------------------------------------------ *)
(** ** [PriceConnectionManager] ([main.py]) *)

(** A websocket is identified by a number; [active_connections] is a
    Python list of them. *)
Definition websocket := nat.

(** [connect]: [accept()], then [append]. *)
Definition connect (active_connections : list websocket) (ws : websocket) : list websocket :=
  active_connections ++ [ws].

(** [list.remove]: drops the first occurrence. *)
Fixpoint list_remove (l : list websocket) (ws : websocket) : list websocket :=
  match l with
  | [] => []
  | x :: l' => if Nat.eqb x ws then l' else x :: list_remove l' ws
  end.

(** [disconnect]: [remove] guarded by [in], so it never raises. *)
Definition disconnect (active_connections : list websocket) (ws : websocket) : list websocket :=
  if existsb (Nat.eqb ws) active_connections then list_remove active_connections ws
  else active_connections.

(* ------------------------------------------------------------------ *)
(** ** The Redis backfill of a snapshot ([_backfill_snapshot_async]) *)

(** The Redis keyspace: the string stored at a key, if any (the TTL of
    [REDIS_TTL_SECONDS] is not modelled: keys are read before they
    expire). *)
Definition store := string -> option string.

Definition store_set (s : store) (k v : string) : store :=
  fun k' => if String.eqb k' k then Some v else s k'.

(** What [r.get] returns on the store. *)
Definition cache_of (s : store) : string -> cache_get :=
  fun k => match s k with Some v => CacheValue v | None => CacheNone end.

(** Where the backfill raises: the [set] of the snapshot, or the
    [execute] of the pipeline ([r.pipeline()] is transactional: its
    [set]s are applied all together or not at all). *)
Inductive backfill_fault :=
| BNoFault
| BFailSnapshot
| BFailExecute.

Section Backfill.
(** [str(it.pdv)] for a float. *)
Variable float_str : float -> string.
(** [orjson.dumps(mw_resp.model_dump())]. *)
Variable dumps_snapshot : MarketWatchResponse -> string.

(** [_backfill_snapshot_async]: the store afterwards.  Every exception
    is swallowed. *)
Definition _backfill_snapshot_async (redis_up : bool) (f : backfill_fault)
    (mw_resp : MarketWatchResponse) (s : store) : store :=
  if negb redis_up then s
  else
    match f with
    | BFailSnapshot => s
    | BFailExecute => store_set s "mw:snapshot" (dumps_snapshot mw_resp)
    | BNoFault =>
        fold_left (fun s it => store_set s ("mw:inst:" ++ it.(insCode) ++ ":pdv") (float_str it.(pdv)))
          mw_resp (store_set s "mw:snapshot" (dumps_snapshot mw_resp))
    end.
End Backfill.

(* ------------------------------------------------------------------ *)
(** ** [/marketwatch-with-additional-data] ([main.py]) *)

(** What [json.loads] of the ["mw:additional_data"] blob gives: [null],
    a dict (with its ["additional_data"] list when the key is there), or
    another JSON value, which has no [.get]. *)
Inductive add_payload :=
| APNull
| APDict (entries : option (list adict))
| APOther.

Definition aval_eqb (a b : aval) : bool :=
  match a, b with
  | AInt x, AInt y => Z.eqb x y
  | AText x, AText y => String.eqb x y
  | ANull, ANull => true
  | _, _ => false
  end.

(** A Python dict with [aval] keys, in insertion order. *)
Fixpoint map_set (m : list (aval * adict)) (k : aval) (v : adict) : list (aval * adict) :=
  match m with
  | [] => [(k, v)]
  | (k0, v0) :: m' => if aval_eqb k0 k then (k0, v) :: m' else (k0, v0) :: map_set m' k v
  end.

Definition map_get (m : list (aval * adict)) (k : aval) : option adict :=
  match find (fun p => aval_eqb (fst p) k) m with Some (_, v) => Some v | None => None end.

(** [item["insCode"]]: [KeyError] when the key is missing. *)
Definition adict_index (d : adict) (k : string) : result aval :=
  match find (fun p => String.eqb (fst p) k) d with Some (_, v) => Ok v | None => Raise end.

(** [{item["insCode"]: item for item in entries}]. *)
Fixpoint build_additional_map (m : list (aval * adict)) (entries : list adict)
    : result (list (aval * adict)) :=
  match entries with
  | [] => Ok m
  | item :: entries' =>
      match adict_index item "insCode" with
      | Ok k => build_additional_map (map_set m k item) entries'
      | Raise => Raise
      end
  end.

(** The merge at the end of the handler: [additional_data.get(
    "additional_data", [])], the map, then each market item with
    [additional_map.get(market_item.insCode)]. *)
Definition merge_additional (mw_resp : MarketWatchResponse) (additional_data : add_payload)
    : result (list (MarketWatchItem * option adict)) :=
  match additional_data with
  | APDict entries =>
      let l := match entries with Some l => l | None => [] end in
      match build_additional_map [] l with
      | Ok additional_map =>
          Ok (map (fun market_item =>
                     (market_item, map_get additional_map (AText market_item.(insCode)))) mw_resp)
      | Raise => Raise
      end
  | APNull | APOther => Raise
  end.

Section WithAdditional.
Variable tehran_offset : Z -> Z.
Variable decode_snapshot : string -> result MarketWatchResponse.
Variable validate_items : list dict -> result MarketWatchResponse.
(** [json.loads] of the additional blob: [Raise] when it is not JSON. *)
Variable decode_additional : string -> result add_payload.
(** [MarketWatchWithAdditionalDataResponse(marketwatch=merged_items)]:
    the class is imported from [schemas.py] but not defined there, so
    its validation is left open: a response or an exception. *)
Variable response : Type.
Variable MarketWatchWithAdditionalDataResponse :
  list (MarketWatchItem * option adict) -> result response.

(** The [try] block on Redis: both [get]s, then the snapshot decoded,
    then the additional blob; an exception anywhere leaves what was set
    before it.  The result is [(mw_resp, additional_data)], [None] for
    what is still missing. *)
Definition redis_reads (redis_up : bool) (mw_get add_get : cache_get)
    : option MarketWatchResponse * option add_payload :=
  if negb redis_up then (None, None)
  else
    match mw_get, add_get with
    | CacheError, _ | _, CacheError => (None, None)
    | _, _ =>
        let blob_of g := match g with CacheValue b => b | _ => ""%string end in
        let mw_blob := blob_of mw_get in
        let additional_blob := blob_of add_get in
        let step1 :=
          if String.eqb mw_blob "" then Ok None
          else match decode_snapshot mw_blob with Ok r => Ok (Some r) | Raise => Raise end in
        match step1 with
        | Raise => (None, None)
        | Ok mw =>
            if String.eqb additional_blob "" then (mw, None)
            else
              match decode_additional additional_blob with
              | Ok APNull => (mw, None)
              | Ok p => (mw, Some p)
              | Raise => (mw, None)
              end
        end
    end.

(** The handler [get_market_watch_with_additional_data]: [now1] and
    [now2] are the times of its two [is_market_open()] calls,
    [fetch_additional] the outcome of [fetch_additional_data()] (its
    ["additional_data"] list), [adb] the [additional_data] table.  The
    backfill tasks it spawns do not change the response and are left
    out.  Each merged item is the item's [model_dump()] with its
    ["additional_data"] entry, here the pair of the two. *)
Definition get_market_watch_with_additional_data (redis_up : bool) (mw_get add_get : cache_get)
    (now1 now2 : datetime) (segments : list (string * http_outcome))
    (fetch_additional : result (list adict)) (db : table) (adb : list additional_row)
    : result response :=
  let '(mw0, add0) := redis_reads redis_up mw_get add_get in
  let mw_resp :=
    match mw0 with
    | Some r => Ok r
    | None =>
        if is_market_open tehran_offset now1 then
          match fetch_merged_data segments with
          | Ok items => validate_items items
          | Raise => Raise
          end
        else get_market_watch_from_db db
    end in
  match mw_resp with
  | Raise => Raise
  | Ok mw_resp =>
      let additional_data :=
        match add0 with
        | Some p => Ok p
        | None =>
            if is_market_open tehran_offset now2 then
              match fetch_additional with Ok l => Ok (APDict (Some l)) | Raise => Raise end
            else Ok (APDict (Some (get_additional_data_from_db adb)))
        end in
      match additional_data with
      | Raise => Raise
      | Ok p =>
          merged_items <- merge_additional mw_resp p ;;
          MarketWatchWithAdditionalDataResponse merged_items
      end
  end.
End WithAdditional.

(** The last entry whose [insCode] is the text [code]. *)
Definition last_additional (code : string) (entries : list adict) : option adict :=
  fold_left (fun acc item => match adict_get item "insCode" ANull with
                             | AText s => if String.eqb s code then Some item else acc
                             | _ => acc
                             end) entries None.

(** Lookup in a key-value store of [dict]s, as [d.get(k)]. *)
Definition dict_get (d : dict) (k : string) : option pyval :=
  match find (fun p => String.eqb (fst p) k) d with Some (_, v) => Some v | None => None end.

(** A call awaiting its [ping] is the one whose client is in [_redis],
    and availability is still unknown; [_redis_available is True] only
    with a client in [_redis]. *)
Definition redis_inv2 (s : redis_system) : Prop :=
  (forall j c, nth_error s.(calls) j = Some (GAwaitPing c) ->
     c = j /\ s.(globals) = mkGlobals (Some c) None) /\
  (s.(globals).(_redis_available) = Some true -> s.(globals).(_redis) <> None).

(** Connected to client [c], with no call awaiting a [ping]. *)
Definition redis_connected (c : nat) (s : redis_system) : Prop :=
  s.(globals) = mkGlobals (Some c) (Some true) /\
  forall j c', nth_error s.(calls) j <> Some (GAwaitPing c').

(** With Redis disabled: the globals untouched, no attempt, every call
    not started or returned [None]. *)
Definition redis_disabled_inv (s : redis_system) : Prop :=
  s.(globals) = mkGlobals None None /\ s.(attempts) = 0%nat /\
  forall j pc, nth_error s.(calls) j = Some pc -> pc = GStart \/ pc = GDone None.

(** [_save_additional_data_if_valid]: the [additional_data] table after
    the pass.  [fetched] is the outcome of [asyncio.wait_for(
    fetch_additional_data(), timeout=30.0)] (its ["additional_data"]
    list), [Raise] for a timeout or any other exception, all of which are
    printed and swallowed, as is an exception of the database write.
    The best-effort Redis caching does not touch the table and is left
    out. *)
Definition _save_additional_data_if_valid (int_of_text : string -> option Z)
    (fetched : result (list adict)) (f : add_fault) (now_iso : string)
    (adb : list additional_row) : list additional_row :=
  match fetched with
  | Raise => adb
  | Ok additional_list =>
      match additional_list with
      | [] => adb
      | _ => snd (save_additional_data int_of_text f now_iso additional_list adb)
      end
  end.

(** [MarketWatchDB.get_database_stats]: [total_records] and
    [latest_updated_at] ([ORDER BY updated_at DESC LIMIT 1], SQLite's
    byte-wise text order); the file size comes from the file system and
    is left out. *)
Definition get_database_stats (t : table) : Z * option string :=
  (Z.of_nat (length t),
   match t with
   | [] => None
   | r :: t' =>
       Some (fold_left (fun latest r => if String.leb latest r.(r_updated_at) then r.(r_updated_at)
                                        else latest) t' r.(r_updated_at))
   end).

(** The rows a snapshot write can leave: rows of [row_of_item] of
    records satisfying [P], with distinct [insCode]s. *)
Definition written_table (P : MarketWatchItem -> Prop) (t : table) : Prop :=
  NoDup (map r_insCode t) /\
  Forall (fun r => exists now_iso y, P y /\ r = row_of_item now_iso y) t.

(** The non-NULL text keys of a list of rows. *)
Definition text_keys (t : list additional_row) : list string :=
  flat_map (fun r => match r.(a_insCode) with AText s => [s] | _ => [] end) t.

(* ================================================================== *)
(** * Properties *)

(* ------------------------------------------------------------------ *)
(** ** Transactional replace: helper lemmas *)

Lemma executemany_none (rows : list row) (t : table) :
  executemany None rows t = Some (fold_left upsert_row rows t).
Proof.
  revert t; induction rows as [|r rows IH]; intro t; [reflexivity|].
  simpl. apply IH.
Qed.

Lemma executemany_some (k : nat) (rows : list row) (t : table) :
  executemany (Some k) rows t =
  if Nat.ltb k (length rows) then None else Some (fold_left upsert_row rows t).
Proof.
  revert k t; induction rows as [|r rows IH]; intros k t; [reflexivity|].
  destruct k as [|k]; [reflexivity|].
  simpl executemany. rewrite IH. reflexivity.
Qed.

Section Upsert.
Context {A : Type} (key : A -> string).

Lemma upsert_fresh (t : list A) (r : A) :
  ~ In (key r) (map key t) -> upsert_by key t r = t ++ [r].
Proof.
  induction t as [|r0 t IH]; intro Hn; [reflexivity|].
  simpl in Hn |- *.
  destruct (String.eqb_spec (key r0) (key r)) as [E|E].
  - exfalso; apply Hn; left; exact E.
  - rewrite IH; [reflexivity|]. intro Hi; apply Hn; right; exact Hi.
Qed.

Lemma fold_upsert_distinct (rows t : list A) :
  NoDup (map key (t ++ rows)) -> fold_left (upsert_by key) rows t = t ++ rows.
Proof.
  revert t; induction rows as [|r rows IH]; intros t Hnd.
  - rewrite app_nil_r; reflexivity.
  - simpl. rewrite upsert_fresh.
    + rewrite IH; [rewrite <- app_assoc; reflexivity|].
      rewrite <- app_assoc; exact Hnd.
    + rewrite map_app in Hnd. simpl in Hnd.
      apply NoDup_remove_2 in Hnd. intro Hi; apply Hnd.
      apply in_or_app; left; exact Hi.
Qed.

Lemma in_keys_upsert (t : list A) (r : A) (c : string) :
  In c (map key (upsert_by key t r)) <-> In c (map key t) \/ c = key r.
Proof.
  induction t as [|r0 t IH]; simpl.
  - split; [intros [E|[]]; right; congruence|intros [[]|E]; left; congruence].
  - destruct (String.eqb_spec (key r0) (key r)) as [E|E]; simpl.
    + split.
      * intros [E'|H]; [right; congruence|left; right; exact H].
      * intros [[E'|H]|E']; [left; congruence|right; exact H|left; congruence].
    + rewrite IH. tauto.
Qed.

Lemma nodup_upsert (t : list A) (r : A) :
  NoDup (map key t) -> NoDup (map key (upsert_by key t r)).
Proof.
  induction t as [|r0 t IH]; intro Hnd; simpl.
  - constructor; [intros []|constructor].
  - inversion Hnd as [|? ? Hn Hnd']; subst.
    destruct (String.eqb_spec (key r0) (key r)) as [E|E]; simpl.
    + constructor; [rewrite <- E; exact Hn|exact Hnd'].
    + constructor; [|exact (IH Hnd')].
      rewrite in_keys_upsert. intros [H|H]; [exact (Hn H)|exact (E H)].
Qed.

Lemma find_upsert (t : list A) (r : A) (c : string) :
  find (fun x => String.eqb (key x) c) (upsert_by key t r) =
  if String.eqb (key r) c then Some r else find (fun x => String.eqb (key x) c) t.
Proof.
  induction t as [|r0 t IH]; simpl.
  - destruct (String.eqb (key r) c); reflexivity.
  - destruct (String.eqb_spec (key r0) (key r)) as [E|E]; simpl.
    + rewrite E. destruct (String.eqb (key r) c); reflexivity.
    + rewrite IH.
      destruct (String.eqb_spec (key r0) c) as [E1|E1];
        destruct (String.eqb_spec (key r) c) as [E2|E2]; try reflexivity.
      congruence.
Qed.

Lemma find_key_in (t : list A) (x : A) :
  NoDup (map key t) -> In x t -> find (fun y => String.eqb (key y) (key x)) t = Some x.
Proof.
  induction t as [|r0 t IH]; intros Hnd Hin; [destruct Hin|].
  inversion Hnd as [|? ? Hn Hnd']; subst. simpl.
  destruct Hin as [<-|Hin]; [rewrite String.eqb_refl; reflexivity|].
  destruct (String.eqb_spec (key r0) (key x)) as [E|E].
  - exfalso; apply Hn; rewrite E; apply in_map; exact Hin.
  - apply IH; assumption.
Qed.

Lemma in_keys_fold (l t : list A) (c : string) :
  In c (map key (fold_left (upsert_by key) l t)) <-> In c (map key t) \/ In c (map key l).
Proof.
  revert t; induction l as [|y l IH]; intro t; simpl.
  - tauto.
  - rewrite IH, in_keys_upsert.
    pose proof (@eq_sym _ c (key y)); pose proof (@eq_sym _ (key y) c). tauto.
Qed.

Lemma nodup_fold (l t : list A) :
  NoDup (map key t) -> NoDup (map key (fold_left (upsert_by key) l t)).
Proof.
  revert t; induction l as [|y l IH]; intros t Hnd; simpl; [exact Hnd|].
  apply IH, nodup_upsert, Hnd.
Qed.

(** Every record left by a sequence of upserts is the last one upserted
    with its key. *)
Lemma fold_upsert_last (l t : list A) (x : A) :
  NoDup (map key t) -> In x (fold_left (upsert_by key) l t) ->
  fold_left (fun acc y => if String.eqb (key y) (key x) then Some y else acc) l
    (find (fun y => String.eqb (key y) (key x)) t) = Some x.
Proof.
  revert t; induction l as [|y l IH]; intros t Hnd Hin; simpl in Hin |- *.
  - apply find_key_in; assumption.
  - rewrite <- find_upsert. apply IH; [apply nodup_upsert, Hnd|exact Hin].
Qed.

End Upsert.

Lemma map_upsert {A B : Type} (k1 : A -> string) (k2 : B -> string) (g : A -> B)
    (Hk : forall a, k2 (g a) = k1 a) (t : list A) (r : A) :
  map g (upsert_by k1 t r) = upsert_by k2 (map g t) (g r).
Proof.
  induction t as [|r0 t IH]; simpl; [reflexivity|].
  rewrite !Hk. destruct (String.eqb (k1 r0) (k1 r)); simpl; [reflexivity|].
  rewrite IH; reflexivity.
Qed.

Lemma map_fold_upsert {A B : Type} (k1 : A -> string) (k2 : B -> string) (g : A -> B)
    (Hk : forall a, k2 (g a) = k1 a) (l t : list A) :
  map g (fold_left (upsert_by k1) l t) = fold_left (upsert_by k2) (map g l) (map g t).
Proof.
  revert t; induction l as [|y l IH]; intro t; simpl; [reflexivity|].
  rewrite IH, (map_upsert k1 k2 g Hk). reflexivity.
Qed.

Lemma keys_rows_from (clock : nat -> string) (i : nat) (data : MarketWatchResponse) :
  map r_insCode (rows_from clock i data) = map insCode data.
Proof.
  revert i; induction data as [|x data IH]; intro i; [reflexivity|]. simpl; rewrite IH; reflexivity.
Qed.

Lemma rows_from_enum (clock : nat -> string) (i : nat) (data : MarketWatchResponse) :
  rows_from clock i data = map (stamped_row clock) (enum_from i data).
Proof.
  revert i; induction data as [|x data IH]; intro i; [reflexivity|]. simpl; rewrite IH; reflexivity.
Qed.

Lemma map_snd_enum {A : Type} (i : nat) (l : list A) : map snd (enum_from i l) = l.
Proof.
  revert i; induction l as [|x l IH]; intro i; [reflexivity|]. simpl; rewrite IH; reflexivity.
Qed.

Lemma in_enum_from {A : Type} (i : nat) (l : list A) (p : nat * A) :
  In p (enum_from i l) -> (i <= fst p < i + length l)%nat.
Proof.
  revert i; induction l as [|x l IH]; intros i H; [destruct H|].
  destruct H as [<-|H]; simpl; [lia|]. specialize (IH _ H). simpl in IH. lia.
Qed.

(** With distinct [insCode]s the committed table is exactly the rows of
    the snapshot, in the snapshot's order. *)
Lemma replace_all_distinct (clock : nat -> string) (data : MarketWatchResponse) :
  NoDup (map insCode data) ->
  replace_all (upsert_rows clock data) = upsert_rows clock data.
Proof.
  intro Hnd. unfold replace_all, upsert_row. apply fold_upsert_distinct.
  simpl. unfold upsert_rows. rewrite keys_rows_from. exact Hnd.
Qed.

(* ------------------------------------------------------------------ *)
(** ** C1: the full replace is all-or-nothing *)

(** C1 (as stated, refuted): a non-empty snapshot whose two records share
    an [insCode] is committed with count 2, but the table afterwards holds
    one row, the second record's: the [ON CONFLICT(insCode) DO UPDATE]
    upsert folds them, so the table is not "exactly that snapshot's
    records". *)
Lemma C1_duplicate_codes_fold :
  let data := [sample_item "IRO1" 1 100.0; sample_item "IRO1" 2 200.0] in
  let clock := fun _ : nat => "2024-01-01T12:30:00"%string in
  save_market_watch_data NoFault clock data [] =
    (Ok 2, [row_of_item "2024-01-01T12:30:00" (sample_item "IRO1" 2 200.0)])
  /\ snd (save_market_watch_data NoFault clock data []) <> upsert_rows clock data.
Proof.
  split; [vm_compute; reflexivity|].
  vm_compute. discriminate.
Qed.

(** C1 (amended): an empty snapshot returns 0 and leaves the table as it
    was; a non-empty snapshot either commits and the table becomes the
    snapshot's rows upserted by [insCode] into an emptied table (exactly
    the snapshot's rows when the [insCode]s are distinct), with the
    snapshot's length returned, or fails at some statement and the table
    is exactly the prior one (0 returned, or the exception of
    [sqlite3.connect] raised); nothing in between is ever committed.
    Without a fault the commit happens.  This holds whatever timestamps
    the rows get. *)
Theorem C1_save_all_or_nothing (f : fault) (clock : nat -> string)
    (data : MarketWatchResponse) (db : table) :
  (data = [] -> save_market_watch_data f clock data db = (Ok 0, db)) /\
  (data <> [] ->
     save_market_watch_data f clock data db =
       (Ok (Z.of_nat (length data)), replace_all (upsert_rows clock data))
     \/ save_market_watch_data f clock data db = (Ok 0, db)
     \/ save_market_watch_data f clock data db = (Raise, db)) /\
  (data <> [] -> save_market_watch_data NoFault clock data db =
     (Ok (Z.of_nat (length data)), replace_all (upsert_rows clock data))) /\
  (NoDup (map insCode data) ->
     replace_all (upsert_rows clock data) = upsert_rows clock data).
Proof.
  split; [|split; [|split]].
  - intros ->. reflexivity.
  - intro Hne. unfold save_market_watch_data.
    destruct (Z.eqb_spec (Z.of_nat (length data)) 0) as [E|E].
    + destruct data; [congruence|simpl in E; lia].
    + destruct f as [| | | |k|]; simpl;
        try (right; left; reflexivity); try (right; right; reflexivity).
      * rewrite executemany_none. left; reflexivity.
      * rewrite executemany_some.
        destruct (Nat.ltb k _).
        -- right; left; reflexivity.
        -- left; reflexivity.
  - intro Hne. unfold save_market_watch_data.
    destruct (Z.eqb_spec (Z.of_nat (length data)) 0) as [E|E].
    + destruct data; [congruence|simpl in E; lia].
    + simpl. rewrite executemany_none. reflexivity.
  - apply replace_all_distinct.
Qed.

(* ------------------------------------------------------------------ *)
(** ** C4: write then read *)

Lemma sql_real_ok (x : float) :
  negb (PrimFloat.is_nan x) = true -> sql_real x = Some (real_stored x).
Proof. unfold sql_real. destruct (PrimFloat.is_nan x); [discriminate|reflexivity]. Qed.

Ltac split_andb :=
  repeat match goal with
         | H : _ && _ = true |- _ => apply andb_prop in H; destruct H
         end.

(** The case split of a REAL column on whether its float is NaN; the
    NaN case is closed by computation. *)
Ltac nan_case x :=
  let E := fresh "E" in destruct (PrimFloat.is_nan x) eqn:E; [reflexivity|].

Lemma item_of_row_row_of_item (now_iso : string) (y : MarketWatchItem) :
  no_nan y = true -> item_of_row (row_of_item now_iso y) = Ok (stored_view y).
Proof.
  destruct y as [l1 l2 f1 pe0 f2 f3 f4 f5 f6 f7 f8 f9 f10 f11 f12 f13 f14 f15 vc0 csv0 ins0
                 f16 f17 f18 bl id0 code de he f19 ic yc f20 f21 f22 f23].
  unfold no_nan, item_floats. simpl forallb. intro H. split_andb.
  unfold row_of_item. cbn -[sql_real item_of_row stored_view real_stored].
  rewrite !sql_real_ok by assumption.
  destruct ic, yc, pe0; reflexivity.
Qed.

Lemma item_of_row_nan (now_iso : string) (y : MarketWatchItem) :
  no_nan y = false -> item_of_row (row_of_item now_iso y) = Raise.
Proof.
  destruct y as [l1 l2 f1 pe0 f2 f3 f4 f5 f6 f7 f8 f9 f10 f11 f12 f13 f14 f15 vc0 csv0 ins0
                 f16 f17 f18 bl id0 code de he f19 ic yc f20 f21 f22 f23].
  unfold no_nan, item_floats. simpl forallb. intro H.
  unfold item_of_row, row_of_item, sql_real. cbn.
  destruct ic, yc;
  nan_case f1; nan_case f2; nan_case f3; nan_case f4; nan_case f5; nan_case f6;
  nan_case f7; nan_case f8; nan_case f9; nan_case f10; nan_case f11; nan_case f12;
  nan_case f13; nan_case f14; nan_case f15; nan_case f16; nan_case f17; nan_case f18;
  nan_case f19; nan_case f20; nan_case f21; nan_case f22; nan_case f23;
  repeat match goal with E : PrimFloat.is_nan _ = false |- _ => rewrite E in H; clear E end;
  discriminate H.
Qed.

Lemma read_stamped_rows (clock : nat -> string) (P : list (nat * MarketWatchItem)) :
  Forall (fun p => no_nan (snd p) = true) P ->
  get_market_watch_from_db (map (stamped_row clock) P) = Ok (map (fun p => stored_view (snd p)) P).
Proof.
  induction P as [|p P IH]; intro Hf; [reflexivity|].
  simpl. unfold stamped_row at 1.
  rewrite item_of_row_row_of_item by exact (Forall_inv Hf).
  rewrite IH by exact (Forall_inv_tail Hf). reflexivity.
Qed.

Lemma read_stamped_rows_raise (clock : nat -> string) (P : list (nat * MarketWatchItem))
    (p : nat * MarketWatchItem) :
  In p P -> no_nan (snd p) = false -> get_market_watch_from_db (map (stamped_row clock) P) = Raise.
Proof.
  induction P as [|q P IH]; intros Hin Hn; [destruct Hin|].
  simpl. destruct Hin as [->|Hin].
  - unfold stamped_row at 1. rewrite item_of_row_nan by exact Hn. reflexivity.
  - rewrite (IH Hin Hn). destruct (item_of_row _); reflexivity.
Qed.

Lemma replace_all_items (clock : nat -> string) (data : MarketWatchResponse) :
  replace_all (upsert_rows clock data) = map (stamped_row clock) (kept_records data).
Proof.
  unfold replace_all, upsert_row, upsert_rows, kept_records. rewrite rows_from_enum.
  rewrite (map_fold_upsert (fun p : nat * MarketWatchItem => (snd p).(insCode)) r_insCode
             (stamped_row clock)); reflexivity.
Qed.

Lemma kept_records_snd (data : MarketWatchResponse) :
  map snd (kept_records data) = fold_left (upsert_by insCode) data [].
Proof.
  unfold kept_records.
  rewrite (map_fold_upsert (fun p : nat * MarketWatchItem => (snd p).(insCode)) insCode snd)
    by reflexivity.
  rewrite map_snd_enum. reflexivity.
Qed.

(** A write that returns a positive count has committed [replace_all]. *)
Lemma save_committed (f : fault) (clock : nat -> string) (data : MarketWatchResponse)
    (db t' : table) (n : Z) :
  save_market_watch_data f clock data db = (Ok n, t') -> n <> 0 ->
  t' = replace_all (upsert_rows clock data).
Proof.
  unfold save_market_watch_data.
  destruct (Z.of_nat (length data) =? 0); [intros H; inversion H; congruence|].
  destruct f as [| | | |k|]; simpl; intro H; inversion H; subst; try congruence.
  - rewrite executemany_none in H. inversion H; reflexivity.
  - rewrite executemany_some in H.
    destruct (Nat.ltb k _); inversion H; subst; [congruence|reflexivity].
Qed.

Lemma find_fold_upsert {A : Type} (key : A -> string) (l t : list A) (c : string) :
  find (fun x => String.eqb (key x) c) (fold_left (upsert_by key) l t) =
  fold_left (fun acc y => if String.eqb (key y) c then Some y else acc) l
    (find (fun x => String.eqb (key x) c) t).
Proof.
  revert t; induction l as [|y l IH]; intro t; simpl; [reflexivity|].
  rewrite IH, find_upsert. reflexivity.
Qed.

Lemma in_upsert_by {A : Type} (key : A -> string) (t : list A) (r x : A) :
  In x (upsert_by key t r) -> x = r \/ In x t.
Proof.
  induction t as [|r0 t IH]; simpl; [intros [<-|[]]; left; reflexivity|].
  destruct (String.eqb (key r0) (key r)); simpl.
  - intros [<-|H]; [left; reflexivity|right; right; exact H].
  - intros [<-|H]; [right; left; reflexivity|].
    destruct (IH H) as [H1|H1]; [left; exact H1|right; right; exact H1].
Qed.

Lemma in_fold_upsert {A : Type} (key : A -> string) (l t : list A) (x : A) :
  In x (fold_left (upsert_by key) l t) -> In x l \/ In x t.
Proof.
  revert t; induction l as [|y l IH]; intros t H; simpl in H; [right; exact H|].
  destruct (IH _ H) as [H1|H1]; [left; right; exact H1|].
  destruct (in_upsert_by key t y x H1) as [<-|H2]; [left; left; reflexivity|right; exact H2].
Qed.

(** The record [last_with] finds is one the upsert keeps. *)
Lemma last_with_kept (code : string) (data : MarketWatchResponse) (y : MarketWatchItem) :
  last_with code data = Some y -> In y (fold_left (upsert_by insCode) data []).
Proof.
  intro H.
  assert (E : find (fun x => String.eqb x.(insCode) code) (fold_left (upsert_by insCode) data [])
              = Some y) by (rewrite find_fold_upsert; exact H).
  apply find_some in E. exact (proj1 E).
Qed.

(** C4 (as stated, refuted): a record written with [id = 5] and
    [pe = 7] reads back with [id = 0] and [pe = "7"]: [id] has no column
    and [pe] is stored as its [str()] text. *)
Lemma C4_id_and_pe_not_preserved :
  let x := sample_item "IRO1" 5 100.0 in
  let t' := snd (save_market_watch_data NoFault (fun _ => "2024-01-01T12:30:00"%string) [x] []) in
  exists y, get_market_watch_from_db t' = Ok [y] /\
    y.(id) = 0 /\ x.(id) = 5 /\ y.(pe) = Some (PyStr "7") /\ x.(pe) = Some (PyInt 7)
    /\ y <> x.
Proof.
  simpl. eexists. split; [vm_compute; reflexivity|].
  repeat split; vm_compute; try reflexivity. discriminate.
Qed.

(** C4 (amended): after a write of a non-empty snapshot that committed
    (returned the snapshot's length): when no float field of the
    snapshot is NaN, the read returns records with the same set of
    [insCode]s as the snapshot; each read record is the last written
    record with its [insCode] with [id] reset to 0, [pe] turned into its
    [str()] text and a [-0.0] float turned into [0.0], all other fields
    equal; with distinct [insCode]s the read gives back exactly those
    records, in order.  When the last written record of some [insCode]
    has a NaN float, SQLite has stored it as NULL and the read raises. *)
Theorem C4_write_read_roundtrip (f : fault) (clock : nat -> string)
    (data : MarketWatchResponse) (db t' : table) :
  data <> [] ->
  save_market_watch_data f clock data db = (Ok (Z.of_nat (length data)), t') ->
  (Forall (fun y => no_nan y = true) data ->
   exists items, get_market_watch_from_db t' = Ok items /\
    (forall c, In c (map insCode items) <-> In c (map insCode data)) /\
    (forall x, In x items -> exists y, last_with x.(insCode) data = Some y /\ x = stored_view y) /\
    (NoDup (map insCode data) -> items = map stored_view data)) /\
  (forall code y, last_with code data = Some y -> no_nan y = false ->
   get_market_watch_from_db t' = Raise).
Proof.
  intros Hne Hs.
  apply save_committed in Hs;
    [|destruct data; [congruence|simpl; lia]].
  subst t'. rewrite replace_all_items.
  set (L := fold_left (upsert_by insCode) data []).
  split.
  - intro Hf. rewrite read_stamped_rows.
    2:{ apply Forall_forall. intros p Hp.
        assert (Hy : In (snd p) L) by (unfold L; rewrite <- kept_records_snd; apply in_map, Hp).
        unfold L in Hy. destruct (in_fold_upsert insCode data [] _ Hy) as [Hy'|[]].
        exact (proj1 (Forall_forall _ _) Hf _ Hy'). }
    rewrite <- (map_map snd stored_view), kept_records_snd. fold L.
    assert (HK : map insCode (map stored_view L) = map insCode L)
      by (rewrite map_map; reflexivity).
    exists (map stored_view L). split; [reflexivity|]. split; [|split].
    + intro c. rewrite HK. unfold L. rewrite in_keys_fold. simpl. tauto.
    + intros x Hx. apply in_map_iff in Hx. destruct Hx as [y [<- Hy]].
      exists y. split; [|reflexivity].
      unfold last_with. simpl.
      exact (fold_upsert_last insCode data [] y (NoDup_nil _) Hy).
    + intro Hnd. unfold L. rewrite fold_upsert_distinct; [reflexivity|exact Hnd].
  - intros code y Hy Hn.
    apply last_with_kept in Hy.
    rewrite <- kept_records_snd in Hy. apply in_map_iff in Hy. destruct Hy as (p & Ep & Hp).
    apply (read_stamped_rows_raise clock _ p Hp). rewrite Ep. exact Hn.
Qed.

Lemma C4_write_read_roundtrip_witness :
  let data := [sample_item "IRO1" 5 100.0; sample_item "IRO2" 6 (-0.0)%float] in
  let clock := fun _ : nat => "t"%string in
  data <> [] /\
  save_market_watch_data NoFault clock data [] =
    (Ok (Z.of_nat (length data)), snd (save_market_watch_data NoFault clock data [])) /\
  (Forall (fun y => no_nan y = true) data ->
   exists items,
    get_market_watch_from_db (snd (save_market_watch_data NoFault clock data [])) = Ok items /\
    (forall c, In c (map insCode items) <-> In c (map insCode data)) /\
    (forall x, In x items -> exists y, last_with x.(insCode) data = Some y /\ x = stored_view y) /\
    (NoDup (map insCode data) -> items = map stored_view data)) /\
  (forall code y, last_with code data = Some y -> no_nan y = false ->
   get_market_watch_from_db (snd (save_market_watch_data NoFault clock data [])) = Raise).
Proof.
  intros data clock.
  split; [discriminate|]. split; [vm_compute; reflexivity|].
  apply (C4_write_read_roundtrip NoFault clock data []);
    [discriminate|vm_compute; reflexivity].
Defined.

(* ------------------------------------------------------------------ *)
(** ** C3: the market clock *)

(** On well-formed times the field-by-field comparison is the
    comparison of the microsecond counts. *)
Lemma time_le_key (a b : time) :
  time_in_range a -> time_in_range b -> time_le a b = (time_key a <=? time_key b).
Proof.
  destruct a as [h1 m1 s1 u1], b as [h2 m2 s2 u2].
  unfold time_in_range, time_le, time_key, us_per_second; simpl.
  intros (Hm1 & Hs1 & Hu1) (Hm2 & Hs2 & Hu2).
  destruct (Z.compare_spec h1 h2); [subst|symmetry; apply Z.leb_le; nia|symmetry; apply Z.leb_gt; nia].
  destruct (Z.compare_spec m1 m2); [subst|symmetry; apply Z.leb_le; nia|symmetry; apply Z.leb_gt; nia].
  destruct (Z.compare_spec s1 s2); [subst|symmetry; apply Z.leb_le; nia|symmetry; apply Z.leb_gt; nia].
  destruct (Z.leb_spec u1 u2); symmetry; [apply Z.leb_le|apply Z.leb_gt]; nia.
Qed.

Lemma time_of_in_range (w : Z) : time_in_range (time_of w).
Proof.
  unfold time_in_range, time_of, us_per_second; simpl.
  repeat split; try apply Z.mod_pos_bound; lia.
Qed.

Lemma time_of_key (w : Z) : time_key (time_of w) = tod_us w.
Proof.
  unfold time_key, time_of, tod_us; simpl.
  set (u := w mod us_per_day).
  pose proof (Z.div_mod u us_per_second ltac:(unfold us_per_second; lia)) as E1.
  pose proof (Z.div_mod (u / us_per_second) 60 ltac:(lia)) as E2.
  pose proof (Z.div_mod (u / us_per_second / 60) 60 ltac:(lia)) as E3.
  lia.
Qed.

Lemma open_key : time_key MARKET_OPEN_TIME = open_us.
Proof. reflexivity. Qed.

Lemma close_key : time_key MARKET_CLOSE_TIME = close_us.
Proof. reflexivity. Qed.

(** C3: after conversion to Tehran wall-clock time, [is_market_open] is
    true exactly when the weekday is a trading day and the time of day
    lies in [open, close], both ends included; in particular it is false
    off the trading days, true at the opening and at the closing instant
    of a trading day, and false one microsecond before the opening and
    one microsecond after the closing. *)
Theorem C3_is_market_open_spec (tehran_offset : Z -> Z) (t : datetime) :
  let w := to_tehran tehran_offset t in
  (is_market_open tehran_offset t = true <->
     In (weekday w) TRADING_DAYS /\ open_us <= tod_us w <= close_us) /\
  (~ In (weekday w) TRADING_DAYS -> is_market_open tehran_offset t = false) /\
  (In (weekday w) TRADING_DAYS ->
     (tod_us w = open_us -> is_market_open tehran_offset t = true) /\
     (tod_us w = close_us -> is_market_open tehran_offset t = true) /\
     (tod_us w = open_us - 1 -> is_market_open tehran_offset t = false) /\
     (tod_us w = close_us + 1 -> is_market_open tehran_offset t = false)).
Proof.
  intro w.
  assert (Hspec : is_market_open tehran_offset t =
    existsb (Z.eqb (weekday w)) TRADING_DAYS &&
    ((open_us <=? tod_us w) && (tod_us w <=? close_us))).
  { unfold is_market_open. fold w.
    rewrite (time_le_key MARKET_OPEN_TIME (time_of w)), (time_le_key (time_of w) MARKET_CLOSE_TIME)
      by (apply time_of_in_range || (unfold time_in_range, us_per_second; simpl; lia)).
    rewrite time_of_key, open_key, close_key.
    destruct (existsb _ _); reflexivity. }
  assert (Hin : existsb (Z.eqb (weekday w)) TRADING_DAYS = true <-> In (weekday w) TRADING_DAYS).
  { rewrite existsb_exists. split.
    - intros [d [Hd E]]. apply Z.eqb_eq in E. rewrite E; exact Hd.
    - intro H. exists (weekday w). split; [exact H|apply Z.eqb_refl]. }
  rewrite Hspec.
  split; [|split].
  - rewrite !andb_true_iff, Hin, !Z.leb_le. tauto.
  - intro Hn. destruct (existsb _ _) eqn:E; [exfalso; apply Hn, Hin; reflexivity|reflexivity].
  - intro Hd. apply Hin in Hd. rewrite Hd. simpl.
    unfold open_us, close_us, us_per_second.
    repeat split; intro E; rewrite E; reflexivity.
Qed.

(* ------------------------------------------------------------------ *)
(** ** C5: a failed segment fails the whole fetch *)

Lemma gather_raise {A : Type} (rs : list (result A)) :
  In Raise rs -> gather rs = Raise.
Proof.
  induction rs as [|r rs IH]; intro H; [destruct H|].
  destruct H as [->|H]; [reflexivity|].
  destruct r; simpl; [rewrite IH by exact H|]; reflexivity.
Qed.

Lemma gather_ok {A : Type} (rs : list (result A)) (l : list A) :
  gather rs = Ok l -> rs = map Ok l.
Proof.
  revert l; induction rs as [|r rs IH]; intros l H; simpl in H.
  - inversion H; reflexivity.
  - destruct r as [a|]; [|discriminate].
    destruct (gather rs) as [l'|] eqn:E; [|discriminate].
    inversion H; subst. simpl. rewrite (IH l' eq_refl). reflexivity.
Qed.

Lemma gather_map_ok {A : Type} (l : list A) : gather (map Ok l) = Ok l.
Proof. induction l as [|a l IH]; simpl; [reflexivity|rewrite IH; reflexivity]. Qed.

Lemma fold_app_concat {A : Type} (ls : list (list A)) (acc : list A) :
  fold_left (fun all_items items => all_items ++ items) ls acc = acc ++ concat ls.
Proof.
  revert acc; induction ls as [|l ls IH]; intro acc; simpl.
  - rewrite app_nil_r; reflexivity.
  - rewrite IH, app_assoc; reflexivity.
Qed.

Example fetch_scenario_timeout :
  fetch_merged_data (MARKETWATCH_SEGMENTS (HttpOk (Some (sample_records 500))) HttpTimeout) = Raise.
Proof. reflexivity. Qed.

(** C5: when any segment request errors, times out or gives a body
    that cannot be processed, the merged fetch raises, whatever the other
    segments returned; when every segment returns its tagged record
    list, the merged fetch returns their concatenation in [urls_dict]
    order; and whenever it returns, every segment returned and the
    result is that concatenation. *)
Theorem C5_fetch_merged_all_or_error (urls_dict : list (string * http_outcome)) :
  (Exists (fun '(market_type, o) => fetch_market_data o market_type = Raise) urls_dict ->
     fetch_merged_data urls_dict = Raise) /\
  (forall lists,
     map (fun '(market_type, o) => fetch_market_data o market_type) urls_dict = map Ok lists ->
     fetch_merged_data urls_dict = Ok (concat lists)) /\
  (forall items, fetch_merged_data urls_dict = Ok items ->
     exists lists,
       map (fun '(market_type, o) => fetch_market_data o market_type) urls_dict = map Ok lists /\
       items = concat lists).
Proof.
  split; [|split].
  - intro Hex. unfold fetch_merged_data. rewrite gather_raise; [reflexivity|].
    apply Exists_exists in Hex. destruct Hex as [[mt o] [Hin Hr]].
    apply in_map_iff. exists (mt, o). split; [exact Hr|exact Hin].
  - intros lists H. unfold fetch_merged_data. rewrite H, gather_map_ok, fold_app_concat.
    reflexivity.
  - intros items H. unfold fetch_merged_data in H.
    destruct (gather _) as [results|] eqn:E; [|discriminate].
    inversion H; subst. exists results. split.
    + apply gather_ok, E.
    + rewrite fold_app_concat. reflexivity.
Qed.

(* ------------------------------------------------------------------ *)
(** ** C8, C9: the [/marketwatch] handler *)

Lemma sample_closed : is_market_open tehran_fixed_offset (Naive 0) = false.
Proof. reflexivity. Qed.

(** C8: at a closed-market instant, when Redis is unavailable or the
    [get] of ["mw:snapshot"] gives nothing or fails, the handler's
    result is exactly the result of [get_market_watch_from_db] (its
    snapshot unmodified, or its exception as the HTTP 500), and the
    upstream is not called. *)
Theorem C8_closed_miss_reads_db (tehran_offset : Z -> Z)
    (decode_snapshot : string -> result MarketWatchResponse)
    (validate_items : list dict -> result MarketWatchResponse)
    (redis_up : bool) (snap : cache_get) (now : datetime)
    (segments : list (string * http_outcome)) (db : table) :
  is_market_open tehran_offset now = false ->
  snapshot_cache_miss redis_up snap ->
  fst (get_market_watch tehran_offset decode_snapshot validate_items redis_up snap now segments db)
    = get_market_watch_from_db db /\
  ~ In CallFetchMerged
      (snd (get_market_watch tehran_offset decode_snapshot validate_items redis_up snap now segments db)).
Proof.
  intros Hclosed Hmiss. unfold get_market_watch.
  assert (Hc : (if redis_up then
                 match snap with
                 | CacheValue blob =>
                     if String.eqb blob "" then None
                     else match decode_snapshot blob with Ok r => Some r | Raise => None end
                 | CacheNone | CacheError => None
                 end
               else None) = None).
  { destruct Hmiss as [->|[->| ->]]; [reflexivity|destruct redis_up; reflexivity|destruct redis_up; reflexivity]. }
  rewrite Hc, Hclosed.
  destruct (get_market_watch_from_db db); simpl;
    (split; [reflexivity|]); destruct redis_up; simpl; intuition discriminate.
Qed.

Lemma C8_closed_miss_reads_db_witness :
  is_market_open tehran_fixed_offset (Naive 0) = false /\
  snapshot_cache_miss false CacheNone /\
  fst (get_market_watch tehran_fixed_offset (fun _ => Ok []) (fun _ => Ok []) false CacheNone
         (Naive 0) [] [row_of_item "t" (sample_item "IRO1" 5 100.0)])
    = get_market_watch_from_db [row_of_item "t" (sample_item "IRO1" 5 100.0)] /\
  ~ In CallFetchMerged
      (snd (get_market_watch tehran_fixed_offset (fun _ => Ok []) (fun _ => Ok []) false CacheNone
              (Naive 0) [] [row_of_item "t" (sample_item "IRO1" 5 100.0)])).
Proof.
  split; [reflexivity|]. split; [left; reflexivity|].
  apply C8_closed_miss_reads_db; [reflexivity|left; reflexivity].
Defined.

(** C9 (as stated, refuted): the [get] of ["mw:snapshot"] returns a
    value, the empty string, which [if blob:] treats as a miss; at a
    closed instant the handler then reads the durable store. *)
Lemma C9_empty_blob_falls_back :
  In CallDbRead
    (snd (get_market_watch tehran_fixed_offset (fun _ => Ok []) (fun _ => Ok []) true
            (CacheValue "") (Naive 0) [] [])).
Proof. simpl. right; right; left; reflexivity. Qed.

(** C9 (amended): when the [get] of ["mw:snapshot"] returns a non-empty
    blob that decodes to a snapshot, the handler returns that snapshot
    and makes no call besides [get_redis] and the cache [get]: neither
    the upstream fetch nor the durable store.  When the blob is empty or
    does not decode, the handler gives the same result and makes the
    same calls as when the key is missing. *)
Theorem C9_cache_hit_short_circuits (tehran_offset : Z -> Z)
    (decode_snapshot : string -> result MarketWatchResponse)
    (validate_items : list dict -> result MarketWatchResponse)
    (blob : string) (now : datetime)
    (segments : list (string * http_outcome)) (db : table) :
  (forall r, blob <> ""%string -> decode_snapshot blob = Ok r ->
   get_market_watch tehran_offset decode_snapshot validate_items true (CacheValue blob) now segments db
     = (Ok r, [CallGetRedis; CallCacheGet "mw:snapshot"])) /\
  (blob = ""%string \/ decode_snapshot blob = Raise ->
   get_market_watch tehran_offset decode_snapshot validate_items true (CacheValue blob) now segments db
     = get_market_watch tehran_offset decode_snapshot validate_items true CacheNone now segments db).
Proof.
  split.
  - intros r Hne Hdec. unfold get_market_watch.
    destruct (String.eqb_spec blob "") as [E|_]; [contradiction|].
    rewrite Hdec. reflexivity.
  - intros Hmiss. unfold get_market_watch.
    destruct (String.eqb_spec blob "") as [_|Hne]; [reflexivity|].
    destruct Hmiss as [E|E]; [contradiction|]. rewrite E. reflexivity.
Qed.

Lemma C9_cache_hit_short_circuits_witness :
  let dec := fun b : string => if String.eqb b "{}" then Ok ([] : MarketWatchResponse) else Raise in
  get_market_watch tehran_fixed_offset dec (fun _ => Ok []) true (CacheValue "{}")
    (Naive 0) [] [] = (Ok [], [CallGetRedis; CallCacheGet "mw:snapshot"]) /\
  get_market_watch tehran_fixed_offset dec (fun _ => Ok []) true (CacheValue "") (Naive 0) [] [] =
  get_market_watch tehran_fixed_offset dec (fun _ => Ok []) true CacheNone (Naive 0) [] [] /\
  get_market_watch tehran_fixed_offset dec (fun _ => Ok []) true (CacheValue "{bad")
    (Naive 0) [] [] =
  get_market_watch tehran_fixed_offset dec (fun _ => Ok []) true CacheNone (Naive 0) [] [].
Proof.
  intros dec. split; [|split].
  - apply (proj1 (C9_cache_hit_short_circuits tehran_fixed_offset dec (fun _ => Ok []) "{}"
                    (Naive 0) [] [])); [discriminate|reflexivity].
  - apply (proj2 (C9_cache_hit_short_circuits tehran_fixed_offset dec (fun _ => Ok []) ""
                    (Naive 0) [] [])). left; reflexivity.
  - apply (proj2 (C9_cache_hit_short_circuits tehran_fixed_offset dec (fun _ => Ok []) "{bad"
                    (Naive 0) [] [])). right; reflexivity.
Defined.

(* ------------------------------------------------------------------ *)
(** ** C6: one tick of the price stream *)

(** C6 (as stated, refuted): with the market open, nothing cached and
    the upstream price request failing (status other than 200, raised as
    [ValueError]), the tick raises instead of sending 0.0. *)
Lemma C6_open_unknown_raises :
  price_tick (fun _ => None) (fun s => if String.eqb s "999" then Some 999 else None)
    true true (fun _ => CacheNone) "999" PriceRaise [] = Raise.
Proof. reflexivity. Qed.

(** C6 (amended): for an identifier that [int()] accepts, with the
    market closed, no cached ["pdv"] value and no stored [pdv] (no row,
    or a NULL one), the tick sends the sentinel 0.0; with the market
    open and no cached ["price"] value, it sends the upstream price when
    the request succeeds and raises when it fails.  For an identifier
    that [int()] rejects, the session raises before sending anything,
    whether the market is open or closed. *)
Theorem C6_tick_sentinel_when_closed (parse_float : string -> option float)
    (parse_int : string -> option Z)
    (redis_up : bool) (cache : string -> cache_get) (ins_code : string)
    (price : price_outcome) (db : table) :
  (parse_int ins_code = None -> forall open_,
   price_tick parse_float parse_int open_ redis_up cache ins_code price db = Raise) /\
  (forall k, parse_int ins_code = Some k ->
   (key_cache_miss redis_up (cache ("mw:inst:" ++ ins_code ++ ":pdv")%string) ->
    get_pdv_by_ins_code db ins_code = None ->
    price_tick parse_float parse_int false redis_up cache ins_code price db = Ok 0.0%float) /\
   (key_cache_miss redis_up (cache ("mw:inst:" ++ ins_code ++ ":price")%string) ->
    price_tick parse_float parse_int true redis_up cache ins_code price db =
      match price with PriceOk v => Ok v | PriceRaise => Raise end)).
Proof.
  split.
  - intros Hn open_. unfold price_tick. rewrite Hn. reflexivity.
  - intros k Hk. split.
    + intros Hmiss Hdb. unfold price_tick, cached_float. rewrite Hk.
      destruct Hmiss as [->|[E|E]]; [|rewrite E; destruct redis_up|rewrite E; destruct redis_up];
        rewrite Hdb; reflexivity.
    + intros Hmiss. unfold price_tick, cached_float. rewrite Hk.
      destruct Hmiss as [->|[E|E]]; [|rewrite E; destruct redis_up|rewrite E; destruct redis_up];
        reflexivity.
Qed.

(* ------------------------------------------------------------------ *)
(** ** C2, C7: the close-time watcher *)

Lemma watcher_wake_date (validate_items : list dict -> result MarketWatchResponse)
    (st : ScheduleState) (db : table) (now : Z) (i : pass_inputs) :
  (fst (fst (watcher_wake validate_items st db now i))).(_last_snapshot_date)
    = Some (toordinal now).
Proof.
  unfold watcher_wake. destruct (_last_snapshot_date st) as [d|] eqn:E; [|reflexivity].
  destruct (Z.eqb_spec d (toordinal now)) as [->|_]; [exact E|reflexivity].
Qed.

Lemma watcher_wake_same_day (validate_items : list dict -> result MarketWatchResponse)
    (st : ScheduleState) (db : table) (now : Z) (i : pass_inputs) :
  st.(_last_snapshot_date) = Some (toordinal now) ->
  watcher_wake validate_items st db now i = (st, db, []).
Proof.
  intro E. unfold watcher_wake. rewrite E, Z.eqb_refl. reflexivity.
Qed.

Lemma watcher_wake_passes (validate_items : list dict -> result MarketWatchResponse)
    (st : ScheduleState) (db : table) (now : Z) (i : pass_inputs) :
  (length (snd (watcher_wake validate_items st db now i)) <= 1)%nat.
Proof.
  unfold watcher_wake. destruct (_last_snapshot_date st) as [d|]; [destruct (d =? _)|]; simpl; lia.
Qed.

(** C2: two wake-ups of the watcher on the same Tehran date run at most
    one persistence pass between them: the second finds the date already
    recorded and changes nothing. *)
Theorem C2_at_most_once_per_day (validate_items : list dict -> result MarketWatchResponse)
    (st : ScheduleState) (db : table) (now1 now2 : Z) (i1 i2 : pass_inputs) :
  toordinal now1 = toordinal now2 ->
  let r1 := watcher_wake validate_items st db now1 i1 in
  let r2 := watcher_wake validate_items (fst (fst r1)) (snd (fst r1)) now2 i2 in
  snd r2 = [] /\ fst r2 = fst r1 /\ (length (snd r1 ++ snd r2) <= 1)%nat.
Proof.
  intros Hday r1 r2.
  assert (E : r2 = (fst (fst r1), snd (fst r1), [])).
  { unfold r2. apply watcher_wake_same_day. rewrite <- Hday. apply watcher_wake_date. }
  rewrite E. simpl. split; [reflexivity|]. split; [destruct r1 as [[? ?] ?]; reflexivity|].
  rewrite app_nil_r. apply watcher_wake_passes.
Qed.

Lemma C2_at_most_once_per_day_witness :
  toordinal sample_close_instant = toordinal (sample_close_instant + 60 * us_per_second) /\
  let r1 := watcher_wake (fun _ => Ok []) initial_schedule [] sample_close_instant
              (mkPass [] NoFault (fun _ => "t"%string)) in
  let r2 := watcher_wake (fun _ => Ok []) (fst (fst r1)) (snd (fst r1))
              (sample_close_instant + 60 * us_per_second) (mkPass [] NoFault (fun _ => "t"%string)) in
  snd r2 = [] /\ fst r2 = fst r1 /\ (length (snd r1 ++ snd r2) <= 1)%nat.
Proof.
  split; [vm_compute; reflexivity|].
  apply C2_at_most_once_per_day. vm_compute; reflexivity.
Defined.

Lemma next_close_after_close (now : Z) :
  close_us <= tod_us now -> toordinal (next_close now) = toordinal now + 1.
Proof.
  unfold next_close, toordinal, tod_us, close_us, us_per_day, us_per_second. intro Hc.
  pose proof (Z.div_mod now (86400 * 1000000) ltac:(lia)) as E.
  destruct (Z.geb_spec now (now / (86400 * 1000000) * (86400 * 1000000) + (12 * 3600 + 30 * 60) * 1000000))
    as [_|H]; [|lia].
  replace (now / (86400 * 1000000) * (86400 * 1000000) + (12 * 3600 + 30 * 60) * 1000000
           + 86400 * 1000000)
    with ((now / (86400 * 1000000) + 1) * (86400 * 1000000) + (12 * 3600 + 30 * 60) * 1000000)
    by ring.
  rewrite Z.div_add_l by lia. rewrite (Z.div_small ((12 * 3600 + 30 * 60) * 1000000)) by lia.
  ring.
Qed.

(** C7 (as stated, refuted): the first close-time wake-up of the day
    meets an upstream timeout; the pass persists nothing, yet the date
    is recorded, and a second wake-up the same day runs no pass. *)
Lemma C7_failed_pass_recorded :
  let inp := mkPass (MARKETWATCH_SEGMENTS (HttpOk (Some (sample_records 3))) HttpTimeout)
               NoFault (fun _ => "t"%string) in
  let db := [row_of_item "t" (sample_item "IRO1" 5 100.0)] in
  let r1 := watcher_wake (fun _ => Ok []) initial_schedule db sample_close_instant inp in
  (fst (fst r1)).(_last_snapshot_date) = Some (toordinal sample_close_instant) /\
  snd (fst r1) = db /\
  snd (watcher_wake (fun _ => Ok []) (fst (fst r1)) (snd (fst r1))
         (sample_close_instant + 60 * us_per_second) inp) = [].
Proof. vm_compute. split; [reflexivity|split; reflexivity]. Qed.

(** A write that reports a failure (0 for a non-empty snapshot, or the
    exception of [sqlite3.connect]) or an empty snapshot leaves the
    table as it was. *)
Lemma save_failed_keeps (f : fault) (clock : nat -> string) (data : MarketWatchResponse)
    (db : table) :
  fst (save_market_watch_data f clock data db) = Ok 0 \/
  fst (save_market_watch_data f clock data db) = Raise ->
  snd (save_market_watch_data f clock data db) = db.
Proof.
  unfold save_market_watch_data.
  destruct (Z.eqb_spec (Z.of_nat (length data)) 0) as [E|E]; [reflexivity|].
  destruct f as [| | | |k|]; simpl; try reflexivity.
  - rewrite executemany_none. simpl. intros [H|H]; inversion H; lia.
  - rewrite executemany_some. destruct (Nat.ltb k _); simpl; [reflexivity|].
    intros [H|H]; inversion H; lia.
Qed.

(** C7 (amended): every wake-up records the day as persisted, whatever
    the pass met: after a pass whose upstream fetch failed (error,
    timeout), whose validation failed, or whose write failed (0
    returned, or the exception of [sqlite3.connect], all swallowed), the
    table is unchanged and the date is recorded all the same; the loop's
    next target after a close-time pass is the next day's close, so the
    day is not retried. *)
Theorem C7_date_recorded_after_every_pass (validate_items : list dict -> result MarketWatchResponse)
    (st : ScheduleState) (db : table) (now : Z) (i : pass_inputs) :
  (fst (fst (watcher_wake validate_items st db now i))).(_last_snapshot_date)
    = Some (toordinal now) /\
  (fetch_merged_data i.(pi_segments) = Raise ->
     snd (fst (watcher_wake validate_items st db now i)) = db) /\
  (forall items, fetch_merged_data i.(pi_segments) = Ok items -> validate_items items = Raise ->
     snd (fst (watcher_wake validate_items st db now i)) = db) /\
  (forall items mw, fetch_merged_data i.(pi_segments) = Ok items -> validate_items items = Ok mw ->
     fst (save_market_watch_data i.(pi_fault) i.(pi_clock) mw db) = Ok 0 \/
     fst (save_market_watch_data i.(pi_fault) i.(pi_clock) mw db) = Raise ->
     snd (fst (watcher_wake validate_items st db now i)) = db) /\
  (close_us <= tod_us now -> toordinal (next_close now) = toordinal now + 1).
Proof.
  assert (Hw : forall db', _save_snapshot_if_valid validate_items i db = db' ->
            db' = db -> snd (fst (watcher_wake validate_items st db now i)) = db).
  { intros db' E1 E2. unfold watcher_wake.
    destruct (_last_snapshot_date st) as [d|]; [destruct (d =? _)|]; simpl; congruence. }
  split; [apply watcher_wake_date|split; [|split; [|split]]].
  - intro Hf. apply (Hw _ eq_refl). unfold _save_snapshot_if_valid. rewrite Hf. reflexivity.
  - intros items Hf Hv. apply (Hw _ eq_refl). unfold _save_snapshot_if_valid.
    rewrite Hf, Hv. reflexivity.
  - intros items mw Hf Hv Hs. apply (Hw _ eq_refl). unfold _save_snapshot_if_valid.
    rewrite Hf, Hv. apply save_failed_keeps, Hs.
  - apply next_close_after_close.
Qed.

(* ------------------------------------------------------------------ *)
(** ** C10: the Redis availability latch *)

Lemma nth_error_replace_nth {A : Type} (l : list A) (i j : nat) (x : A) :
  nth_error (replace_nth l i x) j =
  if Nat.eqb i j then match nth_error l j with Some _ => Some x | None => None end
  else nth_error l j.
Proof.
  revert i j; induction l as [|y l IH]; intros i j.
  - destruct i, j; simpl; try destruct (Nat.eqb _ _); reflexivity.
  - destruct i as [|i], j as [|j]; simpl; try reflexivity. apply IH.
Qed.

Lemma nth_error_snoc {A : Type} (l : list A) (x : A) (j : nat) :
  nth_error (l ++ [x]) j =
  match nth_error l j with Some y => Some y | None => if Nat.eqb j (length l) then Some x else None end.
Proof.
  revert j; induction l as [|y l IH]; intro j.
  - destruct j as [|[|j]]; reflexivity.
  - destruct j as [|j]; simpl; [reflexivity|]. apply IH.
Qed.

Ltac nth_cases :=
  repeat match goal with
  | H : context [nth_error (replace_nth _ _ _) _] |- _ => rewrite nth_error_replace_nth in H
  | |- context [nth_error (replace_nth _ _ _) _] => rewrite nth_error_replace_nth
  | H : context [nth_error (_ ++ [_]) _] |- _ => rewrite nth_error_snoc in H
  | |- context [nth_error (_ ++ [_]) _] => rewrite nth_error_snoc
  end.

Lemma redis_inv_init : redis_inv redis_init.
Proof. intros j c H. destruct j; discriminate. Qed.

Lemma redis_inv_act (en : bool) (s : redis_system) (a : redis_action) :
  redis_inv s -> redis_inv (redis_act en s a).
Proof.
  intros Hinv. destruct a as [|i ok]; simpl.
  - intros j c H. simpl in H. nth_cases.
    destruct (nth_error (calls s) j) eqn:E; [apply Hinv; congruence|].
    destruct (Nat.eqb j _); discriminate.
  - unfold get_redis_step.
    destruct (nth_error (calls s) i) as [[|c0|r]|] eqn:Ei; [| | |exact Hinv].
    + destruct (negb en); [|destruct (option_eq_false _); [|destruct (_redis (globals s)) as [c1|] eqn:Er;
        [|destruct ok]]];
        intros j c H; simpl in H |- *; nth_cases;
        (destruct (Nat.eqb_spec i j) as [<-|Hij];
          [rewrite Ei in H; inversion H; subst; simpl; auto
          |specialize (Hinv j c H); simpl; try rewrite Er in Hinv; intuition congruence]).
    + destruct ok; intros j c H; simpl in H |- *; nth_cases;
        (destruct (Nat.eqb_spec i j) as [<-|Hij];
          [rewrite Ei in H; discriminate|]).
      * exact (Hinv j c H).
      * exfalso. destruct (Hinv j c H) as [-> E1]. destruct (Hinv i c0 Ei) as [-> E2].
        congruence.
    + exact Hinv.
Qed.

Lemma redis_inv_run (en : bool) (acts : list redis_action) (s : redis_system) :
  redis_inv s -> redis_inv (redis_run en s acts).
Proof.
  revert s; induction acts as [|a acts IH]; intros s H; [exact H|].
  simpl. apply IH, redis_inv_act, H.
Qed.

(** A failing call leaves the latch set with nothing in flight. *)
Lemma redis_fail_latches (en : bool) (s : redis_system) (i : nat) :
  redis_inv s -> call_fails en s i = true -> redis_latched (get_redis_step en s i false).
Proof.
  intros Hinv Hf. unfold call_fails in Hf. unfold get_redis_step.
  destruct (nth_error (calls s) i) as [[|c0|r]|] eqn:Ei; try discriminate.
  - destruct en; [|discriminate]. simpl in Hf |- *.
    destruct (option_eq_false _); [discriminate|].
    destruct (_redis (globals s)) as [c1|] eqn:Er; [discriminate|].
    split; [reflexivity|split; [reflexivity|]]. intros j c H. simpl in H. nth_cases.
    destruct (Nat.eqb_spec i j) as [<-|Hij]; [rewrite Ei in H; discriminate|].
    destruct (Hinv j c H) as [_ E]. congruence.
  - split; [reflexivity|split; [reflexivity|]]. intros j c H. simpl in H. nth_cases.
    destruct (Nat.eqb_spec i j) as [<-|Hij]; [rewrite Ei in H; discriminate|].
    destruct (Hinv j c H) as [-> E1]. destruct (Hinv i c0 Ei) as [-> E2]. congruence.
Qed.

(** Once latched, a step keeps the latch, makes no [from_url] attempt
    and turns a call that had not started into one returning [None]. *)
Lemma redis_latched_act (en : bool) (s : redis_system) (a : redis_action) :
  redis_latched s ->
  redis_latched (redis_act en s a) /\ (redis_act en s a).(attempts) = s.(attempts) /\
  (forall j, fresh_or_none (nth_error s.(calls) j) ->
             fresh_or_none (nth_error (redis_act en s a).(calls) j)).
Proof.
  intros (Hav & Hr & Hnp). destruct a as [|i ok]; simpl.
  - split; [|split; [reflexivity|]].
    + split; [exact Hav|split; [exact Hr|]]. intros j c H. simpl in H. nth_cases.
      destruct (nth_error (calls s) j) eqn:E; [apply (Hnp j c); congruence|].
      destruct (Nat.eqb j _); discriminate.
    + intros j Hj. simpl. nth_cases. unfold fresh_or_none in *.
      destruct (nth_error (calls s) j) eqn:E; [exact Hj|].
      destruct (Nat.eqb j _); [right; left|left]; reflexivity.
  - unfold get_redis_step. rewrite Hav. simpl.
    destruct (nth_error (calls s) i) as [[|c0|r]|] eqn:Ei.
    + assert (Hk : forall b : bool, (if b then mkSystem (globals s) (replace_nth (calls s) i (GDone None)) (attempts s)
                   else mkSystem (globals s) (replace_nth (calls s) i (GDone None)) (attempts s))
                   = mkSystem (globals s) (replace_nth (calls s) i (GDone None)) (attempts s))
        by (intros []; reflexivity).
      rewrite Hk. simpl. split; [|split; [reflexivity|]].
      * split; [exact Hav|split; [exact Hr|]]. intros j c H. simpl in H. nth_cases.
        destruct (Nat.eqb_spec i j) as [<-|Hij]; [rewrite Ei in H; discriminate|].
        exact (Hnp j c H).
      * intros j Hj. simpl. nth_cases. destruct (Nat.eqb_spec i j) as [<-|Hij]; [|exact Hj].
        rewrite Ei. right; right; reflexivity.
    + exfalso; exact (Hnp i c0 Ei).
    + split; [split; [exact Hav|split; [exact Hr|exact Hnp]]|split; [reflexivity|auto]].
    + split; [split; [exact Hav|split; [exact Hr|exact Hnp]]|split; [reflexivity|auto]].
Qed.

Lemma redis_latched_run (en : bool) (acts : list redis_action) (s : redis_system) :
  redis_latched s ->
  redis_latched (redis_run en s acts) /\ (redis_run en s acts).(attempts) = s.(attempts) /\
  (forall j, fresh_or_none (nth_error s.(calls) j) ->
             fresh_or_none (nth_error (redis_run en s acts).(calls) j)).
Proof.
  revert s; induction acts as [|a acts IH]; intros s Hl; [split; [exact Hl|split; auto]|].
  simpl. destruct (redis_latched_act en s a Hl) as (Hl' & Ha & Hf).
  destruct (IH _ Hl') as (Hl'' & Ha' & Hf').
  split; [exact Hl''|split; [congruence|]]. intros j Hj. apply Hf', Hf, Hj.
Qed.

(** C10: from process start, under any interleaving of [get_redis()]
    calls, once a call fails to connect or ping, the availability flag
    stays [False], no further [redis.from_url] attempt is made, and every
    call that had not started when the failure happened returns [None]. *)
Theorem C10_redis_latch_permanent (REDIS_ENABLED : bool)
    (before after : list redis_action) (i : nat) :
  let s1 := redis_run REDIS_ENABLED redis_init before in
  call_fails REDIS_ENABLED s1 i = true ->
  let s2 := get_redis_step REDIS_ENABLED s1 i false in
  let s3 := redis_run REDIS_ENABLED s2 after in
  s3.(globals).(_redis_available) = Some false /\ s3.(attempts) = s2.(attempts) /\
  (forall j, fresh_or_none (nth_error s2.(calls) j) -> fresh_or_none (nth_error s3.(calls) j)).
Proof.
  intros s1 Hf s2 s3.
  assert (Hl : redis_latched s2).
  { apply redis_fail_latches; [apply redis_inv_run, redis_inv_init|exact Hf]. }
  destruct (redis_latched_run REDIS_ENABLED after s2 Hl) as ((Hav & _) & Ha & Hfr).
  split; [exact Hav|split; [exact Ha|exact Hfr]].
Qed.

Lemma C10_redis_latch_permanent_witness :
  call_fails true (redis_run true redis_init [NewCall]) 0 = true /\
  let s2 := get_redis_step true (redis_run true redis_init [NewCall]) 0 false in
  let s3 := redis_run true s2 [NewCall; Run 1 true; NewCall; Run 2 true] in
  s3.(globals).(_redis_available) = Some false /\ s3.(attempts) = s2.(attempts) /\
  (forall j, fresh_or_none (nth_error s2.(calls) j) -> fresh_or_none (nth_error s3.(calls) j)).
Proof.
  split; [reflexivity|].
  apply (C10_redis_latch_permanent true [NewCall] [NewCall; Run 1 true; NewCall; Run 2 true] 0).
  reflexivity.
Defined.

(* ------------------------------------------------------------------ *)
(** ** More of [database.py]: point lookups and the table invariant *)

Lemma pdv_of_rows (clock : nat -> string) (P : list (nat * MarketWatchItem)) (code : string) :
  get_pdv_by_ins_code (map (stamped_row clock) P) code =
  match find (fun p => String.eqb (snd p).(insCode) code) P with
  | Some p => sql_real (snd p).(pdv)
  | None => None
  end.
Proof.
  induction P as [|p P IH]; simpl; [reflexivity|].
  destruct (String.eqb (insCode (snd p)) code); [reflexivity|exact IH].
Qed.

Lemma last_enum (code : string) (l : MarketWatchResponse) (i : nat) (acc : option (nat * MarketWatchItem)) :
  option_map snd (fold_left (fun acc p => if String.eqb (snd p).(insCode) code then Some p else acc)
                    (enum_from i l) acc) =
  fold_left (fun acc y => if String.eqb y.(insCode) code then Some y else acc) l (option_map snd acc).
Proof.
  revert i acc; induction l as [|y l IH]; intros i acc; simpl; [reflexivity|].
  rewrite IH. destruct (String.eqb (insCode y) code); reflexivity.
Qed.

(** The numbered record the upsert keeps for a code is the snapshot's
    last record with that code. *)
Lemma find_kept (code : string) (data : MarketWatchResponse) :
  option_map snd (find (fun p => String.eqb (snd p).(insCode) code) (kept_records data)) =
  last_with code data.
Proof.
  unfold kept_records.
  rewrite (find_fold_upsert (fun p : nat * MarketWatchItem => (snd p).(insCode))).
  apply last_enum.
Qed.

(** The outcome of a write: the table is the prior one, or the
    committed full replace. *)
Lemma save_outcome (f : fault) (clock : nat -> string) (data : MarketWatchResponse) (db : table) :
  snd (save_market_watch_data f clock data db) = db \/
  snd (save_market_watch_data f clock data db) = replace_all (upsert_rows clock data).
Proof.
  unfold save_market_watch_data.
  destruct (Z.of_nat (length data) =? 0); [left; reflexivity|].
  destruct f as [| | | |k|]; simpl; try (left; reflexivity).
  - rewrite executemany_none. right; reflexivity.
  - rewrite executemany_some.
    destruct (Nat.ltb k _); [left|right]; reflexivity.
Qed.

Lemma in_rows_from (clock : nat -> string) (i : nat) (data : MarketWatchResponse) (x : row) :
  In x (rows_from clock i data) -> exists j y, In y data /\ x = row_of_item (clock j) y.
Proof.
  revert i; induction data as [|y data IH]; intros i H; [destruct H|].
  destruct H as [<-|H].
  - exists i, y. split; [left; reflexivity|reflexivity].
  - destruct (IH _ H) as (j & y' & Hy & E). exists j, y'. split; [right; exact Hy|exact E].
Qed.

Lemma written_table_save (P : MarketWatchItem -> Prop) (f : fault) (clock : nat -> string)
    (data : MarketWatchResponse) (db : table) :
  Forall P data -> written_table P db ->
  written_table P (snd (save_market_watch_data f clock data db)).
Proof.
  intros Hd Hw. destruct (save_outcome f clock data db) as [E|E]; rewrite E; [exact Hw|].
  split.
  - unfold replace_all, upsert_row. apply nodup_fold. constructor.
  - apply Forall_forall. intros x Hx. unfold replace_all, upsert_row in Hx.
    destruct (in_fold_upsert r_insCode _ _ x Hx) as [H|[]].
    destruct (in_rows_from clock 0 data x H) as (j & y & Hy & ->).
    exists (clock j), y. split; [exact (proj1 (Forall_forall _ _) Hd y Hy)|reflexivity].
Qed.

Lemma written_table_reads (t : table) :
  Forall (fun r => exists now_iso y, no_nan y = true /\ r = row_of_item now_iso y) t ->
  exists l, get_market_watch_from_db t = Ok l.
Proof.
  induction t as [|r t IH]; intro Hf; [exists []; reflexivity|].
  destruct (Forall_inv Hf) as (now_iso & y & Hy & ->).
  destruct (IH (Forall_inv_tail Hf)) as (l & Hl). exists (stored_view y :: l).
  simpl. rewrite item_of_row_row_of_item by exact Hy. rewrite Hl. reflexivity.
Qed.

Lemma pdv_committed (f : fault) (clock : nat -> string) (data : MarketWatchResponse)
    (db t' : table) (n : Z) (code : string) :
  save_market_watch_data f clock data db = (Ok n, t') -> n <> 0 ->
  get_pdv_by_ins_code t' code =
  match last_with code data with Some y => sql_real y.(pdv) | None => None end.
Proof.
  intros Hs Hn. rewrite (save_committed f clock data db t' n Hs Hn).
  rewrite replace_all_items, pdv_of_rows, <- find_kept.
  destruct (find _ (kept_records data)); reflexivity.
Qed.

(** [get_pdv_by_ins_code] after a committed write of a snapshot: the
    [pdv] of the snapshot's last record with that [insCode] (the upsert
    keeps the last one) as the REAL column holds it: [None] when that
    [pdv] is NaN (stored as NULL), [0.0] for [-0.0]; and [None] for a
    code the snapshot does not have. *)
Theorem pdv_after_save (f : fault) (clock : nat -> string) (data : MarketWatchResponse)
    (db t' : table) (n : Z) (code : string) :
  save_market_watch_data f clock data db = (Ok n, t') -> n <> 0 ->
  get_pdv_by_ins_code t' code =
  match last_with code data with Some y => sql_real y.(pdv) | None => None end.
Proof. apply pdv_committed. Qed.

Lemma pdv_after_save_witness :
  let data := [sample_item "IRO1" 1 100.0; sample_item "IRO2" 2 PrimFloat.nan;
               sample_item "IRO1" 3 200.0] in
  let clock := fun _ : nat => "2024-01-01T12:30:00"%string in
  save_market_watch_data NoFault clock data [] =
    (Ok 3, snd (save_market_watch_data NoFault clock data [])) /\
  (3 <> 0) /\
  get_pdv_by_ins_code (snd (save_market_watch_data NoFault clock data [])) "IRO2" =
  match last_with "IRO2" data with Some y => sql_real y.(pdv) | None => None end.
Proof.
  intros data clock.
  split; [vm_compute; reflexivity|split; [lia|]].
  apply (pdv_after_save NoFault clock data [] _ 3 "IRO2"); [vm_compute; reflexivity|lia].
Defined.

Lemma written_table_fold (P : MarketWatchItem -> Prop)
    (calls : list (fault * (nat -> string) * MarketWatchResponse)) (db : table) :
  (forall f clock data, In (f, clock, data) calls -> Forall P data) ->
  written_table P db ->
  written_table P (fold_left (fun db c => let '(f, clock, data) := c in
                   snd (save_market_watch_data f clock data db)) calls db).
Proof.
  revert db; induction calls as [|((f, clock), data) calls IH]; intros db Hc Hdb; simpl;
    [exact Hdb|].
  apply IH.
  - intros f' clock' data' Hin. apply (Hc f' clock' data'). right; exact Hin.
  - apply written_table_save; [apply (Hc f clock data); left; reflexivity|exact Hdb].
Qed.

(** Whatever sequence of writes (committed, failed or empty) runs on
    the initially empty [instruments] table, its [insCode]s stay
    distinct; and when no written record has a NaN float,
    [get_market_watch_from_db] never raises on it: every stored
    [iClose]/[yClose] is 0 or 1 and no REAL column is NULL. *)
Theorem writes_keep_table_readable (calls : list (fault * (nat -> string) * MarketWatchResponse)) :
  let t := fold_left (fun db c => let '(f, clock, data) := c in
                        snd (save_market_watch_data f clock data db)) calls [] in
  NoDup (map r_insCode t) /\
  ((forall f clock data, In (f, clock, data) calls -> Forall (fun y => no_nan y = true) data) ->
   exists l, get_market_watch_from_db t = Ok l).
Proof.
  intro t. split.
  - destruct (written_table_fold (fun _ => True) calls []) as [Hnd _].
    + intros f clock data _. apply Forall_forall. intros; exact I.
    + split; constructor.
    + exact Hnd.
  - intro Hc.
    destruct (written_table_fold (fun y => no_nan y = true) calls [] Hc) as [_ Hf];
      [split; constructor|].
    apply written_table_reads, Hf.
Qed.

(** One tick of [/ws/price] for an identifier [int()] accepts, with the
    market closed and no cached ["pdv"] value, after a committed write:
    the tick sends the [pdv] of the snapshot's last record with that
    [insCode] as stored, or the sentinel 0.0 when the snapshot does not
    have the code or that [pdv] is NaN (stored as NULL). *)
Theorem closed_tick_after_save (parse_float : string -> option float)
    (parse_int : string -> option Z) (redis_up : bool)
    (cache : string -> cache_get) (ins_code : string) (k : Z) (price : price_outcome)
    (f : fault) (clock : nat -> string) (data : MarketWatchResponse) (db t' : table) (n : Z) :
  parse_int ins_code = Some k ->
  save_market_watch_data f clock data db = (Ok n, t') -> n <> 0 ->
  key_cache_miss redis_up (cache ("mw:inst:" ++ ins_code ++ ":pdv")%string) ->
  price_tick parse_float parse_int false redis_up cache ins_code price t' =
    Ok (match last_with ins_code data with
        | Some y => match sql_real y.(pdv) with Some v => v | None => 0.0%float end
        | None => 0.0%float
        end).
Proof.
  intros Hk Hs Hn Hmiss.
  pose proof (pdv_committed f clock data db t' n ins_code Hs Hn) as Hp.
  unfold price_tick, cached_float. rewrite Hk.
  destruct Hmiss as [->|[E|E]]; [|rewrite E; destruct redis_up|rewrite E; destruct redis_up];
    rewrite Hp; destruct (last_with ins_code data) as [y|]; try reflexivity;
    destruct (sql_real (pdv y)); reflexivity.
Qed.

Lemma closed_tick_after_save_witness :
  let data := [sample_item "1" 1 100.0; sample_item "3" 2 PrimFloat.nan] in
  let clock := fun _ : nat => "2024-01-01T12:30:00"%string in
  let parse_int := fun s : string => if String.eqb s "3" then Some 3 else None in
  let t' := snd (save_market_watch_data NoFault clock data []) in
  parse_int "3"%string = Some 3 /\
  save_market_watch_data NoFault clock data [] = (Ok 2, t') /\ (2 <> 0) /\
  key_cache_miss true CacheNone /\
  price_tick (fun _ => None) parse_int false true (fun _ => CacheNone) "3" PriceRaise t'
    = Ok 0.0%float.
Proof.
  intros data clock parse_int t'.
  split; [reflexivity|split; [vm_compute; reflexivity|split; [lia|split; [right; left; reflexivity|]]]].
  apply (closed_tick_after_save (fun _ => None) parse_int true (fun _ => CacheNone) "3" 3 PriceRaise
           NoFault clock data [] t' 2); [reflexivity|vm_compute; reflexivity|lia|].
  right; left; reflexivity.
Defined.

(* ------------------------------------------------------------------ *)
(** ** The [additional_data] table *)

Lemma existsb_text_key (t : list additional_row) (s : string) :
  existsb (fun r0 => match r0.(a_insCode), AText s with
                     | AText a, AText b => String.eqb a b
                     | _, _ => false end) t = true <-> In s (text_keys t).
Proof.
  unfold text_keys.
  induction t as [|r t IH]; simpl; [split; [discriminate|intros []]|].
  rewrite orb_true_iff, IH.
  destruct (a_insCode r) as [z|a|]; simpl.
  - split; [intros [H|H]; [discriminate|exact H]|intro H; right; exact H].
  - rewrite String.eqb_eq. split; intros [H|H]; auto.
  - split; [intros [H|H]; [discriminate|exact H]|intro H; right; exact H].
Qed.

Lemma text_keys_app (t u : list additional_row) :
  text_keys (t ++ u) = text_keys t ++ text_keys u.
Proof. unfold text_keys; apply flat_map_app. Qed.

(** [executemany] of plain [INSERT]s: it succeeds, appending the rows,
    exactly when the non-NULL text keys stay distinct. *)
Lemma executemany_insert_spec (rows t : list additional_row) :
  NoDup (text_keys t) ->
  (executemany_insert rows t = Some (t ++ rows) /\ NoDup (text_keys (t ++ rows))) \/
  (executemany_insert rows t = None /\ ~ NoDup (text_keys (t ++ rows))).
Proof.
  revert t; induction rows as [|r rows IH]; intros t Hnd; simpl.
  - left; rewrite app_nil_r; split; [reflexivity|exact Hnd].
  - replace (t ++ r :: rows) with ((t ++ [r]) ++ rows) by (rewrite <- app_assoc; reflexivity).
    unfold insert_additional.
    destruct (a_insCode r) as [z|s|] eqn:Ek.
    + destruct (existsb _ t) eqn:Ee.
      { apply existsb_exists in Ee. destruct Ee as (x & _ & Hx).
        destruct (a_insCode x); discriminate. }
      apply IH. rewrite text_keys_app. simpl. rewrite Ek. simpl. rewrite app_nil_r. exact Hnd.
    + destruct (existsb _ t) eqn:Ee.
      * right; split; [reflexivity|]. apply existsb_text_key in Ee.
        rewrite !text_keys_app. simpl. rewrite Ek. simpl. intro Hd.
        apply NoDup_app_remove_r in Hd.
        apply NoDup_remove_2 in Hd. apply Hd. rewrite app_nil_r. exact Ee.
      * apply IH. rewrite text_keys_app. simpl. rewrite Ek. simpl.
        apply NoDup_app; [exact Hnd|repeat constructor; intros []|].
        intros x Hx [E|[]]; subst x. apply (proj2 (existsb_text_key t s)) in Hx. congruence.
    + apply IH. rewrite text_keys_app. simpl. rewrite Ek. simpl. rewrite app_nil_r. exact Hnd.
Qed.

Lemma save_additional_rows (int_of_text : string -> option Z) (f : add_fault) (now_iso : string)
    (data : list adict) (t : list additional_row) :
  data <> [] ->
  let rows := map (additional_row_of int_of_text now_iso) data in
  (f = ANoFault /\ NoDup (text_keys rows) /\
   save_additional_data int_of_text f now_iso data t = (Ok (Z.of_nat (length data)), rows)) \/
  ((f <> ANoFault \/ ~ NoDup (text_keys rows)) /\
   save_additional_data int_of_text f now_iso data t = (Raise, t)).
Proof.
  intros Hne rows. unfold save_additional_data.
  destruct data as [|d data']; [congruence|]. fold rows.
  destruct f; try (right; split; [left; discriminate|reflexivity]).
  destruct (executemany_insert_spec rows [] (NoDup_nil _)) as [[E Hnd]|[E Hnd]];
    rewrite E; simpl in Hnd.
  - left. split; [reflexivity|split; [exact Hnd|]].
    subst rows. rewrite length_map. reflexivity.
  - right. split; [right; exact Hnd|reflexivity].
Qed.

(** [save_additional_data] on a non-empty list is all-or-nothing: it
    commits and returns the list's length exactly when no statement
    fails and the [insCode]s, as stored through the TEXT affinity, are
    distinct (NULL keys may repeat); the table is then the list's rows in
    order.  Otherwise it raises and the table is the prior one: a
    duplicate key raises [IntegrityError] and the [DELETE] is rolled
    back. *)
Theorem save_additional_all_or_nothing (int_of_text : string -> option Z) (f : add_fault)
    (now_iso : string) (data : list adict) (t : list additional_row) :
  data <> [] ->
  let rows := map (additional_row_of int_of_text now_iso) data in
  (f = ANoFault -> NoDup (text_keys rows) ->
   save_additional_data int_of_text f now_iso data t = (Ok (Z.of_nat (length data)), rows)) /\
  (f <> ANoFault \/ ~ NoDup (text_keys rows) ->
   save_additional_data int_of_text f now_iso data t = (Raise, t)).
Proof.
  intros Hne rows.
  destruct (save_additional_rows int_of_text f now_iso data t Hne) as [(Hf & Hnd & E)|(Hc & E)].
  - split; [intros _ _; exact E|].
    intros [H|H]; [congruence|contradiction].
  - split; [|intros _; exact E].
    intros Hf Hnd. destruct Hc as [H|H]; contradiction.
Qed.

(** The integer key 5 and the text key ["5"] collide in the TEXT
    column: the write raises and the old rows stay. *)
Lemma save_additional_all_or_nothing_witness :
  let data := [[("insCode"%string, AInt 5)]; [("insCode"%string, AText "5")]] in
  let old := [mkAddRow (AText "7") [] "2024-01-01"] in
  data <> [] /\
  save_additional_data (fun _ => None) ANoFault "2024-01-02" data old = (Raise, old).
Proof.
  intros data old. split; [discriminate|].
  apply (proj2 (save_additional_all_or_nothing (fun _ => None) ANoFault "2024-01-02" data old
           ltac:(discriminate))).
  right. vm_compute. intro H. inversion H as [|? ? Hn]; subst. apply Hn; left; reflexivity.
Defined.

Lemma combine_map_columns (g : string -> aval) (l : list string) :
  combine l (map g l) = map (fun k => (k, g k)) l.
Proof. induction l as [|k l IH]; simpl; [reflexivity|]. rewrite IH; reflexivity. Qed.

Lemma integer_affinity_not_text (int_of_text : string -> option Z) (v : aval) :
  is_text v = false -> integer_affinity int_of_text v = v.
Proof. destruct v; simpl; congruence. Qed.

(** Writing a client-type list with [save_additional_data] and reading
    it back with [get_additional_data_from_db] gives, item by item and
    in order, its [insCode] (an integer one as its decimal text) and the
    ten counts, a missing count as 0, when the counts are integers or
    [None]. *)
Theorem additional_roundtrip (int_of_text : string -> option Z) (f : add_fault)
    (now_iso : string) (data : list adict) (t t' : list additional_row) (n : Z) :
  save_additional_data int_of_text f now_iso data t = (Ok n, t') -> n <> 0 ->
  (forall item k, In item data -> In k additional_columns ->
     is_text (adict_get item k (AInt 0)) = false) ->
  get_additional_data_from_db t' = map additional_view data.
Proof.
  intros Hs Hn Hc.
  assert (Hne : data <> []) by (intros ->; inversion Hs; congruence).
  destruct (save_additional_rows int_of_text f now_iso data t Hne) as [(_ & _ & E)|(_ & E)];
    rewrite E in Hs; inversion Hs; subst.
  unfold get_additional_data_from_db. rewrite map_map.
  apply map_ext_in. intros item Hin. unfold additional_row_of, additional_view. cbn [a_insCode a_counts].
  f_equal. rewrite combine_map_columns. apply map_ext_in. intros k Hk.
  rewrite integer_affinity_not_text; [reflexivity|exact (Hc item k Hin Hk)].
Qed.

Lemma additional_roundtrip_witness :
  let data := [[("insCode"%string, AInt 5); ("buy_CountI"%string, AInt 3)];
               [("insCode"%string, AText "IRO1"); ("sell_CountN"%string, ANull)]] in
  let t' := snd (save_additional_data (fun _ => None) ANoFault "2024-01-02" data []) in
  save_additional_data (fun _ => None) ANoFault "2024-01-02" data [] = (Ok 2, t') /\ (2 <> 0) /\
  get_additional_data_from_db t' = map additional_view data.
Proof.
  intros data t'.
  split; [vm_compute; reflexivity|split; [lia|]].
  apply (additional_roundtrip (fun _ => None) ANoFault "2024-01-02" data [] t' 2);
    [vm_compute; reflexivity|lia|].
  intros item k Hi Hk. simpl in Hi.
  destruct Hi as [<-|[<-|[]]]; simpl in Hk;
    repeat (destruct Hk as [<-|Hk]; [reflexivity|]); destruct Hk.
Defined.

(* ------------------------------------------------------------------ *)
(** ** [PriceConnectionManager] *)

Lemma list_remove_snoc_absent (l : list websocket) (ws : websocket) :
  ~ In ws l -> list_remove (l ++ [ws]) ws = l.
Proof.
  induction l as [|x l IH]; intro Hn; simpl; [rewrite Nat.eqb_refl; reflexivity|].
  destruct (Nat.eqb_spec x ws) as [E|E]; [exfalso; apply Hn; left; exact E|].
  rewrite IH; [reflexivity|intro H; apply Hn; right; exact H].
Qed.

Lemma list_remove_snoc_present (l : list websocket) (ws : websocket) :
  In ws l -> list_remove (l ++ [ws]) ws = list_remove l ws ++ [ws].
Proof.
  induction l as [|x l IH]; intro Hi; [destruct Hi|simpl].
  destruct (Nat.eqb_spec x ws) as [E|E]; [reflexivity|].
  destruct Hi as [Hi|Hi]; [congruence|]. rewrite IH by exact Hi. reflexivity.
Qed.

(** [connect] then [disconnect] of the same websocket gives back the
    registry it was not in; when it was already registered, the earlier
    registration is the one removed and the new one stays at the end. *)
Theorem connect_disconnect (active_connections : list websocket) (ws : websocket) :
  (~ In ws active_connections ->
   disconnect (connect active_connections ws) ws = active_connections) /\
  (In ws active_connections ->
   disconnect (connect active_connections ws) ws = list_remove active_connections ws ++ [ws]).
Proof.
  unfold disconnect, connect.
  assert (Hin : existsb (Nat.eqb ws) (active_connections ++ [ws]) = true).
  { apply existsb_exists. exists ws. split; [apply in_or_app; right; left; reflexivity|apply Nat.eqb_refl]. }
  rewrite Hin. split; [apply list_remove_snoc_absent|apply list_remove_snoc_present].
Qed.

(** [disconnect] of a websocket that is not registered leaves the
    registry as it is, and [disconnect] never adds one. *)
Theorem disconnect_absent_noop (active_connections : list websocket) (ws ws' : websocket) :
  (~ In ws active_connections -> disconnect active_connections ws = active_connections) /\
  (In ws' (disconnect active_connections ws) -> In ws' active_connections).
Proof.
  unfold disconnect. split.
  - intro Hn. destruct (existsb (Nat.eqb ws) active_connections) eqn:E; [|reflexivity].
    apply existsb_exists in E. destruct E as (x & Hx & Ex). apply Nat.eqb_eq in Ex; subst.
    contradiction.
  - destruct (existsb _ _); [|exact (fun H => H)].
    induction active_connections as [|x l IH]; simpl; [exact (fun H => H)|].
    destruct (Nat.eqb x ws); [intro H; right; exact H|].
    intros [H|H]; [left; exact H|right; apply IH, H].
Qed.

(* ------------------------------------------------------------------ *)
(** ** The watcher's schedule *)

Lemma next_close_spec (now : Z) :
  now < next_close now <= now + us_per_day /\ tod_us (next_close now) = close_us /\
  (tod_us now < close_us -> toordinal (next_close now) = toordinal now).
Proof.
  unfold next_close, tod_us, toordinal, close_us, us_per_day, us_per_second.
  set (D := 86400 * 1000000).
  set (C := (12 * 3600 + 30 * 60) * 1000000).
  assert (HD : 0 < D) by (subst D; lia).
  assert (HC : 0 <= C < D) by (subst C D; lia).
  pose proof (Z.div_mod now D ltac:(lia)) as E.
  pose proof (Z.mod_pos_bound now D HD) as B.
  destruct (Z.geb_spec now (now / D * D + C)) as [H|H].
  - split; [lia|]. split.
    + replace (now / D * D + C + D) with (C + (now / D + 1) * D) by ring.
      rewrite Z.mod_add by lia. apply Z.mod_small; lia.
    + intro Hlt. lia.
  - split; [lia|]. split.
    + replace (now / D * D + C) with (C + (now / D) * D) by ring.
      rewrite Z.mod_add by lia. apply Z.mod_small; lia.
    + intros _. replace (now / D * D + C) with (C + (now / D) * D) by ring.
      rewrite Z.div_add by lia. rewrite Z.div_small by lia. lia.
Qed.

(** The sleep target of the loop is always strictly after [now] and at
    most one day later, always at 12:30, and on [now]'s own date when
    [now] is before 12:30: [sleep_seconds > 0] always holds. *)
Theorem next_close_bounds (now : Z) :
  now < next_close now <= now + us_per_day /\ tod_us (next_close now) = close_us /\
  (tod_us now < close_us -> toordinal (next_close now) = toordinal now).
Proof. exact (next_close_spec now). Qed.

(** [is_market_open] on an aware datetime depends only on the instant:
    two readings of the same UTC instant in any two fixed-offset zones
    give the same answer, and a naive reading is taken as Tehran wall
    time ([TEHRAN_TZ.localize]). *)
Theorem is_market_open_instant (tehran_offset : Z -> Z) (w o o' : Z) :
  is_market_open tehran_offset (Aware w (OtherTZ o)) =
    is_market_open tehran_offset (Aware (w - o + o') (OtherTZ o')) /\
  is_market_open tehran_offset (Naive w) = is_market_open tehran_offset (Aware w TEHRAN_TZ_obj).
Proof.
  unfold is_market_open, to_tehran. split; [|reflexivity].
  replace (w - o + o' - o') with (w - o) by ring. reflexivity.
Qed.

(** Starting while the market is closed spawns one persistence pass but
    leaves [_last_snapshot_date] unset, so the loop's first wake runs a
    pass too, whenever it happens; started before 12:30, the loop's
    first target is on the same Tehran date as the start, so that date
    gets two passes. *)
Theorem startup_pass_not_recorded (tehran_offset : Z -> Z)
    (validate_items : list dict -> result MarketWatchResponse)
    (t0 : datetime) (db : table) (w1 : Z) (i : pass_inputs) :
  is_market_open tehran_offset t0 = false ->
  let st := fst (watcher_startup tehran_offset initial_schedule t0) in
  snd (watcher_startup tehran_offset initial_schedule t0) = [tt] /\
  st.(_last_snapshot_date) = None /\
  snd (watcher_wake validate_items st db w1 i) = [tt] /\
  (tod_us (to_tehran tehran_offset t0) < close_us ->
   toordinal (next_close (to_tehran tehran_offset t0)) = toordinal (to_tehran tehran_offset t0)).
Proof.
  intros Hc st. unfold st, watcher_startup. rewrite Hc. simpl.
  split; [reflexivity|split; [reflexivity|split; [reflexivity|]]].
  destruct (next_close_spec (to_tehran tehran_offset t0)) as (_ & _ & H). exact H.
Qed.

Lemma startup_pass_not_recorded_witness :
  is_market_open tehran_fixed_offset (Naive 0) = false /\
  let st := fst (watcher_startup tehran_fixed_offset initial_schedule (Naive 0)) in
  snd (watcher_startup tehran_fixed_offset initial_schedule (Naive 0)) = [tt] /\
  st.(_last_snapshot_date) = None /\
  snd (watcher_wake (fun _ => Raise) st [] (next_close 0) (mkPass [] NoFault (fun _ => ""%string))) = [tt] /\
  (tod_us (to_tehran tehran_fixed_offset (Naive 0)) < close_us ->
   toordinal (next_close (to_tehran tehran_fixed_offset (Naive 0))) =
     toordinal (to_tehran tehran_fixed_offset (Naive 0))).
Proof.
  split; [vm_compute; reflexivity|].
  apply (startup_pass_not_recorded tehran_fixed_offset (fun _ => Raise) (Naive 0) []
           (next_close 0) (mkPass [] NoFault (fun _ => ""%string))).
  vm_compute; reflexivity.
Defined.

(* ------------------------------------------------------------------ *)
(** ** The [/marketwatch] handler while the market is open *)

(** With the market open and no usable snapshot in Redis, the handler
    answers from the upstream segments: the merged items validated, or
    the HTTP 500 when a segment fails or validation raises; it never
    reads the database. *)
Theorem open_miss_fetches_live (tehran_offset : Z -> Z)
    (decode_snapshot : string -> result MarketWatchResponse)
    (validate_items : list dict -> result MarketWatchResponse)
    (redis_up : bool) (snap : cache_get) (now : datetime)
    (segments : list (string * http_outcome)) (db : table) :
  is_market_open tehran_offset now = true ->
  snapshot_cache_miss redis_up snap ->
  fst (get_market_watch tehran_offset decode_snapshot validate_items redis_up snap now segments db)
    = match fetch_merged_data segments with Ok items => validate_items items | Raise => Raise end /\
  ~ In CallDbRead
      (snd (get_market_watch tehran_offset decode_snapshot validate_items redis_up snap now segments db)).
Proof.
  intros Hopen Hmiss. unfold get_market_watch.
  assert (Hc : (if redis_up then
                 match snap with
                 | CacheValue blob =>
                     if String.eqb blob "" then None
                     else match decode_snapshot blob with Ok r => Some r | Raise => None end
                 | CacheNone | CacheError => None
                 end
               else None) = None).
  { destruct Hmiss as [->|[->| ->]]; [reflexivity|destruct redis_up; reflexivity|destruct redis_up; reflexivity]. }
  rewrite Hc, Hopen.
  destruct (fetch_merged_data segments) as [items|]; [destruct (validate_items items)|]; simpl;
    (split; [reflexivity|]); destruct redis_up; simpl; intuition discriminate.
Qed.

Lemma open_miss_fetches_live_witness :
  is_market_open tehran_fixed_offset (Naive (open_us + us_per_day)) = true /\
  snapshot_cache_miss true CacheNone /\
  fst (get_market_watch tehran_fixed_offset (fun _ => Raise) (fun _ => Ok [])
         true CacheNone (Naive (open_us + us_per_day)) [("stock"%string, HttpTimeout)] [])
    = Raise.
Proof.
  split; [vm_compute; reflexivity|split; [right; left; reflexivity|]].
  apply (open_miss_fetches_live tehran_fixed_offset (fun _ => Raise) (fun _ => Ok [])
           true CacheNone (Naive (open_us + us_per_day)) [("stock"%string, HttpTimeout)] []);
    [vm_compute; reflexivity|right; left; reflexivity].
Defined.

(* ------------------------------------------------------------------ *)
(** ** The merged upstream items *)

Lemma dict_get_set (d : dict) (k k' : string) (v : pyval) :
  dict_get (dict_set d k v) k' = if String.eqb k k' then Some v else dict_get d k'.
Proof.
  unfold dict_get, dict_set.
  rewrite (find_upsert fst d (k, v) k'). simpl.
  destruct (String.eqb k k'); reflexivity.
Qed.

(** Every item of a successful [fetch_merged_data] comes from one
    segment's response: it is a record of that segment's ["marketwatch"]
    list with ["market_type"] set to the segment's key, every other key
    unchanged. *)
Theorem merged_items_tagged (urls_dict : list (string * http_outcome)) (items : list dict) :
  fetch_merged_data urls_dict = Ok items ->
  forall item, In item items ->
  exists market_type body d,
    In (market_type, HttpOk body) urls_dict /\ In d (_extract_items body) /\
    item = dict_set d "market_type" (PyStr market_type) /\
    dict_get item "market_type" = Some (PyStr market_type) /\
    (forall k, k <> "market_type"%string -> dict_get item k = dict_get d k).
Proof.
  intros H item Hin. unfold fetch_merged_data in H.
  destruct (gather _) as [results|] eqn:E; [|discriminate].
  inversion H as [Hi]; subst items. clear H.
  apply gather_ok in E. rewrite fold_app_concat in Hin. simpl in Hin.
  apply in_concat in Hin. destruct Hin as (l & Hl & Hil).
  assert (Hok : In (Ok l) (map (fun '(market_type, o) => fetch_market_data o market_type) urls_dict)).
  { rewrite E. apply in_map, Hl. }
  apply in_map_iff in Hok. destruct Hok as ([mt o] & Hf & Hu).
  destruct o as [body| | |]; simpl in Hf; try discriminate.
  inversion Hf as [Hl']; subst l. clear Hf.
  apply in_map_iff in Hil. destruct Hil as (d & <- & Hd).
  exists mt, body, d. split; [exact Hu|split; [exact Hd|split; [reflexivity|split]]].
  - rewrite dict_get_set, String.eqb_refl. reflexivity.
  - intros k Hk. rewrite dict_get_set.
    destruct (String.eqb_spec "market_type" k) as [Ek|_]; [congruence|reflexivity].
Qed.

Lemma merged_items_tagged_witness :
  let urls := [("stock"%string, HttpOk (Some [[("insCode"%string, PyStr "IRO1")]]));
               ("base"%string, HttpOk None)] in
  fetch_merged_data urls = Ok [[("insCode"%string, PyStr "IRO1"); ("market_type"%string, PyStr "stock")]] /\
  exists market_type body d,
    In (market_type, HttpOk body) urls /\ In d (_extract_items body) /\
    [("insCode"%string, PyStr "IRO1"); ("market_type"%string, PyStr "stock")] =
      dict_set d "market_type" (PyStr market_type) /\
    dict_get [("insCode"%string, PyStr "IRO1"); ("market_type"%string, PyStr "stock")] "market_type"
      = Some (PyStr market_type) /\
    (forall k, k <> "market_type"%string ->
       dict_get [("insCode"%string, PyStr "IRO1"); ("market_type"%string, PyStr "stock")] k = dict_get d k).
Proof.
  intros urls. split; [vm_compute; reflexivity|].
  apply (merged_items_tagged urls _ ltac:(vm_compute; reflexivity)). left; reflexivity.
Defined.

(* ------------------------------------------------------------------ *)
(** ** [get_redis]: success, sharing and the disabled switch *)

Lemma redis_inv2_init : redis_inv2 redis_init.
Proof. split; [intros j c H; destruct j; discriminate|discriminate]. Qed.

Lemma redis_inv2_act (s : redis_system) (a : redis_action) :
  redis_inv2 s -> redis_inv2 (redis_act true s a).
Proof.
  intros [Hw Ht]. destruct a as [|i ok]; simpl.
  - split; [|exact Ht]. intros j c H. simpl in H. nth_cases.
    destruct (nth_error (calls s) j) eqn:E; [apply Hw; congruence|].
    destruct (Nat.eqb j _); discriminate.
  - unfold get_redis_step.
    destruct (nth_error (calls s) i) as [[|c0|r]|] eqn:Ei; [| |split; assumption|split; assumption].
    + simpl. destruct (option_eq_false (_redis_available (globals s))) eqn:Ef.
      { split; [|exact Ht]. intros j c H. simpl in H. nth_cases.
        destruct (Nat.eqb_spec i j) as [<-|Hij]; [rewrite Ei in H; discriminate|exact (Hw j c H)]. }
      destruct (_redis (globals s)) as [c1|] eqn:Er.
      { split; [|simpl; intros _; rewrite Er; discriminate]. intros j c H. simpl in H. nth_cases.
        destruct (Nat.eqb_spec i j) as [<-|Hij]; [rewrite Ei in H; discriminate|exact (Hw j c H)]. }
      assert (Hnone : forall j c, nth_error (calls s) j <> Some (GAwaitPing c)).
      { intros j c H. destruct (Hw j c H) as [_ Eg]. rewrite Eg in Er. discriminate. }
      destruct ok; split; simpl.
      * intros j c H. nth_cases.
        destruct (Nat.eqb_spec i j) as [<-|Hij]; [|exfalso; exact (Hnone j c H)].
        rewrite Ei in H. inversion H; subst. split; [reflexivity|].
        destruct (_redis_available (globals s)) as [[]|]; simpl in Ef; [|discriminate|reflexivity].
        exfalso. exact (Ht eq_refl eq_refl).
      * intros _; discriminate.
      * intros j c H. nth_cases.
        destruct (Nat.eqb_spec i j) as [<-|Hij]; [rewrite Ei in H; discriminate|].
        exfalso; exact (Hnone j c H).
      * discriminate.
    + destruct (Hw i c0 Ei) as [-> Eg].
      assert (Hone : forall j c, j <> i -> nth_error (calls s) j <> Some (GAwaitPing c)).
      { intros j c Hij H. destruct (Hw j c H) as [-> Eg']. rewrite Eg in Eg'.
        inversion Eg'. congruence. }
      destruct ok; split; simpl.
      * intros j c H. nth_cases.
        destruct (Nat.eqb_spec i j) as [<-|Hij]; [rewrite Ei in H; discriminate|].
        exfalso; exact (Hone j c (not_eq_sym Hij) H).
      * intros _. rewrite Eg. discriminate.
      * intros j c H. nth_cases.
        destruct (Nat.eqb_spec i j) as [<-|Hij]; [rewrite Ei in H; discriminate|].
        exfalso; exact (Hone j c (not_eq_sym Hij) H).
      * discriminate.
Qed.

Lemma redis_inv2_run (acts : list redis_action) (s : redis_system) :
  redis_inv2 s -> redis_inv2 (redis_run true s acts).
Proof.
  unfold redis_run. revert s; induction acts as [|a acts IH]; intros s H; simpl; [exact H|].
  apply IH, redis_inv2_act, H.
Qed.

Lemma redis_connected_act (c : nat) (s : redis_system) (a : redis_action) :
  redis_connected c s ->
  redis_connected c (redis_act true s a) /\ (redis_act true s a).(attempts) = s.(attempts) /\
  (forall j r, nth_error (redis_act true s a).(calls) j = Some (GDone r) ->
     nth_error s.(calls) j = Some (GDone r) \/ r = Some c).
Proof.
  intros [Hg Hnp]. destruct a as [|i ok]; simpl.
  - split; [split; [exact Hg|]|split; [reflexivity|]].
    + intros j c' H. simpl in H. nth_cases.
      destruct (nth_error (calls s) j) eqn:E; [apply (Hnp j c'); congruence|].
      destruct (Nat.eqb j _); discriminate.
    + intros j r H. simpl in H. nth_cases.
      destruct (nth_error (calls s) j) eqn:E; [left; exact H|].
      destruct (Nat.eqb j _); discriminate.
  - unfold get_redis_step. rewrite Hg. simpl.
    destruct (nth_error (calls s) i) as [[|c0|r]|] eqn:Ei.
    + split; [split; [reflexivity|]|split; [reflexivity|]].
      * intros j c' H. simpl in H. nth_cases.
        destruct (Nat.eqb_spec i j) as [<-|Hij]; [rewrite Ei in H; discriminate|exact (Hnp j c' H)].
      * intros j r H. simpl in H. nth_cases.
        destruct (Nat.eqb_spec i j) as [<-|Hij]; [rewrite Ei in H; inversion H; right; reflexivity|].
        left; exact H.
    + exfalso; exact (Hnp i c0 Ei).
    + split; [split; assumption|split; [reflexivity|auto]].
    + split; [split; assumption|split; [reflexivity|auto]].
Qed.

Lemma redis_connected_run (c : nat) (acts : list redis_action) (s : redis_system) :
  redis_connected c s ->
  redis_connected c (redis_run true s acts) /\ (redis_run true s acts).(attempts) = s.(attempts) /\
  (forall j r, nth_error (redis_run true s acts).(calls) j = Some (GDone r) ->
     nth_error s.(calls) j = Some (GDone r) \/ r = Some c).
Proof.
  unfold redis_run. revert s; induction acts as [|a acts IH]; intros s H; simpl.
  - split; [exact H|split; [reflexivity|auto]].
  - destruct (redis_connected_act c s a H) as (H1 & A1 & R1).
    destruct (IH _ H1) as (H2 & A2 & R2).
    split; [exact H2|split; [congruence|]].
    intros j r Hj. destruct (R2 j r Hj) as [Hj'|Hr]; [exact (R1 j r Hj')|right; exact Hr].
Qed.

Lemma redis_ping_ok_connects (s : redis_system) (i c : nat) :
  redis_inv2 s -> nth_error s.(calls) i = Some (GAwaitPing c) ->
  nth_error (get_redis_step true s i true).(calls) i = Some (GDone (Some c)) /\
  redis_connected c (get_redis_step true s i true).
Proof.
  intros [Hw _] Ei. destruct (Hw i c Ei) as [-> Eg].
  unfold get_redis_step. rewrite Ei, Eg. simpl. split.
  - nth_cases. rewrite Nat.eqb_refl, Ei. reflexivity.
  - split; [reflexivity|]. intros j c' H. simpl in H. nth_cases.
    destruct (Nat.eqb_spec i j) as [E|Hij]; [subst j; rewrite Ei in H; discriminate|].
    destruct (Hw j c' H) as [-> Eg']. rewrite Eg in Eg'. inversion Eg'. congruence.
Qed.

(** Once a [get_redis()] call's [ping] succeeds, that call returns the
    client, and from then on, whatever the interleaving, [_redis] keeps
    that client with [_redis_available] [True], no further
    [redis.from_url] attempt is made, and every call that returns
    afterwards returns that same client. *)
Theorem redis_success_sticks (before after : list redis_action) (i c : nat) :
  let s1 := redis_run true redis_init before in
  nth_error s1.(calls) i = Some (GAwaitPing c) ->
  let s2 := get_redis_step true s1 i true in
  let s3 := redis_run true s2 after in
  nth_error s2.(calls) i = Some (GDone (Some c)) /\
  s3.(globals) = mkGlobals (Some c) (Some true) /\ s3.(attempts) = s2.(attempts) /\
  (forall j r, nth_error s3.(calls) j = Some (GDone r) ->
     nth_error s2.(calls) j = Some (GDone r) \/ r = Some c).
Proof.
  intros s1 Ei s2 s3.
  destruct (redis_ping_ok_connects s1 i c (redis_inv2_run before redis_init redis_inv2_init) Ei)
    as [Hd Hc].
  destruct (redis_connected_run c after s2 Hc) as ((Hg & _) & Ha & Hr).
  split; [exact Hd|split; [exact Hg|split; [exact Ha|exact Hr]]].
Qed.

Lemma redis_success_sticks_witness :
  nth_error (redis_run true redis_init [NewCall; Run 0 true]).(calls) 0 = Some (GAwaitPing 0) /\
  let s2 := get_redis_step true (redis_run true redis_init [NewCall; Run 0 true]) 0 true in
  let s3 := redis_run true s2 [NewCall; NewCall; Run 2 false; Run 1 true] in
  nth_error s2.(calls) 0 = Some (GDone (Some 0%nat)) /\
  s3.(globals) = mkGlobals (Some 0%nat) (Some true) /\ s3.(attempts) = s2.(attempts) /\
  (forall j r, nth_error s3.(calls) j = Some (GDone r) ->
     nth_error s2.(calls) j = Some (GDone r) \/ r = Some 0%nat).
Proof.
  split; [reflexivity|].
  apply (redis_success_sticks [NewCall; Run 0 true] [NewCall; NewCall; Run 2 false; Run 1 true] 0 0).
  reflexivity.
Defined.

(** A [get_redis()] call that starts while another call is still
    awaiting its [ping] returns that call's client at once, unverified
    and without an attempt of its own; if the [ping] then fails, Redis is
    marked unavailable, but the second caller already holds the
    client. *)
Theorem redis_unverified_client_shared (before : list redis_action) (i k c : nat) (ok : bool) :
  let s1 := redis_run true redis_init before in
  nth_error s1.(calls) i = Some (GAwaitPing c) ->
  nth_error s1.(calls) k = Some GStart ->
  let s2 := get_redis_step true s1 k ok in
  let s3 := get_redis_step true s2 i false in
  nth_error s2.(calls) k = Some (GDone (Some c)) /\ s2.(attempts) = s1.(attempts) /\
  s3.(globals) = mkGlobals None (Some false) /\ nth_error s3.(calls) k = Some (GDone (Some c)).
Proof.
  intros s1 Ei Ek s2 s3.
  destruct (redis_inv2_run before redis_init redis_inv2_init) as [Hw _].
  fold s1 in Hw. destruct (Hw i c Ei) as [-> Eg].
  assert (Hik : i <> k) by (intros ->; congruence).
  assert (E2 : s2 = mkSystem (globals s1) (replace_nth (calls s1) k (GDone (Some i))) (attempts s1)).
  { unfold s2, get_redis_step. rewrite Ek, Eg. reflexivity. }
  assert (Ek2 : nth_error s2.(calls) k = Some (GDone (Some i))).
  { rewrite E2. simpl. nth_cases. rewrite Nat.eqb_refl, Ek. reflexivity. }
  assert (Ei2 : nth_error s2.(calls) i = Some (GAwaitPing i)).
  { rewrite E2. simpl. nth_cases. destruct (Nat.eqb_spec k i); [congruence|exact Ei]. }
  split; [exact Ek2|split; [rewrite E2; reflexivity|]].
  unfold s3, get_redis_step. rewrite Ei2. simpl. split; [reflexivity|].
  nth_cases. destruct (Nat.eqb_spec i k); [congruence|exact Ek2].
Qed.

Lemma redis_unverified_client_shared_witness :
  let s1 := redis_run true redis_init [NewCall; Run 0 true; NewCall] in
  nth_error s1.(calls) 0 = Some (GAwaitPing 0) /\ nth_error s1.(calls) 1 = Some GStart /\
  let s2 := get_redis_step true s1 1 true in
  let s3 := get_redis_step true s2 0 false in
  nth_error s2.(calls) 1 = Some (GDone (Some 0%nat)) /\ s2.(attempts) = s1.(attempts) /\
  s3.(globals) = mkGlobals None (Some false) /\ nth_error s3.(calls) 1 = Some (GDone (Some 0%nat)).
Proof.
  intros s1. split; [reflexivity|split; [reflexivity|]].
  apply (redis_unverified_client_shared [NewCall; Run 0 true; NewCall] 0 1 0 true);
    reflexivity.
Defined.

Lemma redis_disabled_act (s : redis_system) (a : redis_action) :
  redis_disabled_inv s -> redis_disabled_inv (redis_act false s a).
Proof.
  intros (Hg & Ha & Hc). destruct a as [|i ok]; simpl.
  - split; [exact Hg|split; [exact Ha|]]. intros j pc H. simpl in H. nth_cases.
    destruct (nth_error (calls s) j) eqn:E; [apply (Hc j); congruence|].
    destruct (Nat.eqb j _); inversion H; left; reflexivity.
  - unfold get_redis_step. simpl.
    destruct (nth_error (calls s) i) as [pc0|] eqn:Ei; [|split; [exact Hg|split; assumption]].
    destruct (Hc i pc0 Ei) as [->| ->]; (split; [exact Hg|split; [exact Ha|]]); [|exact Hc].
    intros j pc H. simpl in H. nth_cases.
    destruct (Nat.eqb_spec i j) as [<-|Hij]; [rewrite Ei in H; inversion H; right; reflexivity|].
    exact (Hc j pc H).
Qed.

(** With [REDIS_ENABLED] off, whatever the interleaving of calls,
    every [get_redis()] returns [None], the globals are never touched and
    no connection is ever attempted. *)
Theorem redis_disabled_never_connects (acts : list redis_action) :
  let s := redis_run false redis_init acts in
  s.(globals) = mkGlobals None None /\ s.(attempts) = 0%nat /\
  forall j r, nth_error s.(calls) j = Some (GDone r) -> r = None.
Proof.
  intro s.
  assert (Hrun : forall s0 acts, redis_disabled_inv s0 -> redis_disabled_inv (redis_run false s0 acts)).
  { intros s0 acts0. unfold redis_run. revert s0.
    induction acts0 as [|a acts0 IH]; intros s0 H0; simpl; [exact H0|apply IH, redis_disabled_act, H0]. }
  destruct (Hrun redis_init acts) as (Hg & Ha & Hc).
  { split; [reflexivity|split; [reflexivity|]]. intros j pc H. destruct j; discriminate. }
  split; [exact Hg|split; [exact Ha|]].
  intros j r H. destruct (Hc j _ H) as [E|E]; inversion E; reflexivity.
Qed.

(* ------------------------------------------------------------------ *)
(** ** [/marketwatch-with-additional-data] *)

Lemma aval_eqb_eq (a b : aval) : aval_eqb a b = true <-> a = b.
Proof.
  destruct a, b; simpl; split; intro H; try discriminate; try congruence.
  - apply Z.eqb_eq in H; congruence.
  - inversion H; apply Z.eqb_refl.
  - apply String.eqb_eq in H; congruence.
  - inversion H; apply String.eqb_refl.
Qed.

Lemma map_get_set (m : list (aval * adict)) (k k' : aval) (v : adict) :
  map_get (map_set m k v) k' = if aval_eqb k k' then Some v else map_get m k'.
Proof.
  unfold map_get. induction m as [|[k0 v0] m IH]; simpl; [destruct (aval_eqb k k'); reflexivity|].
  destruct (aval_eqb k0 k) eqn:E0; simpl.
  - apply aval_eqb_eq in E0; subst k0. destruct (aval_eqb k k'); reflexivity.
  - destruct (aval_eqb k0 k') eqn:E1; [|exact IH].
    apply aval_eqb_eq in E1; subst k0.
    destruct (aval_eqb k k') eqn:E2; [|reflexivity].
    apply aval_eqb_eq in E2; subst k. rewrite (proj2 (aval_eqb_eq k' k') eq_refl) in E0. discriminate.
Qed.

Lemma adict_index_get (d : adict) (k : string) (v : aval) :
  adict_index d k = Ok v -> adict_get d k ANull = v.
Proof. unfold adict_index, adict_get. destruct (find _ d) as [[? ?]|]; congruence. Qed.

Lemma build_map_ok (m : list (aval * adict)) (entries : list adict) :
  (forall item, In item entries -> exists v, adict_index item "insCode" = Ok v) ->
  exists m', build_additional_map m entries = Ok m' /\
  forall code, map_get m' (AText code) =
    fold_left (fun acc item => match adict_get item "insCode" ANull with
                               | AText s => if String.eqb s code then Some item else acc
                               | _ => acc
                               end) entries (map_get m (AText code)).
Proof.
  revert m; induction entries as [|item entries IH]; intros m Hk; simpl.
  - exists m. split; reflexivity.
  - destruct (Hk item (or_introl eq_refl)) as (v & Hv). rewrite Hv.
    destruct (IH (map_set m v item)) as (m' & E & Hm').
    { intros it Hit. apply Hk. right; exact Hit. }
    exists m'. split; [exact E|]. intro code. rewrite Hm', map_get_set.
    rewrite (adict_index_get _ _ _ Hv). f_equal.
    destruct v as [z|s|]; simpl; reflexivity.
Qed.

Lemma build_map_raise (m : list (aval * adict)) (entries : list adict) :
  Exists (fun item => adict_index item "insCode" = Raise) entries ->
  build_additional_map m entries = Raise.
Proof.
  revert m; induction entries as [|item entries IH]; intros m Hex; [inversion Hex|].
  simpl. inversion Hex as [? ? H|? ? H]; subst.
  - rewrite H. reflexivity.
  - destruct (adict_index item "insCode"); [apply IH, H|reflexivity].
Qed.

Lemma merge_additional_core (mw_resp : MarketWatchResponse) (entries : list adict) :
  ((forall item, In item entries -> exists v, adict_index item "insCode" = Ok v) ->
   merge_additional mw_resp (APDict (Some entries)) =
     Ok (map (fun x => (x, last_additional x.(insCode) entries)) mw_resp)) /\
  (Exists (fun item => adict_index item "insCode" = Raise) entries ->
   merge_additional mw_resp (APDict (Some entries)) = Raise).
Proof.
  split.
  - intro Hk. destruct (build_map_ok [] entries Hk) as (m' & E & Hm).
    unfold merge_additional. rewrite E. f_equal. apply map_ext. intro x.
    rewrite Hm. reflexivity.
  - intro Hex. unfold merge_additional. rewrite (build_map_raise [] entries Hex). reflexivity.
Qed.

(** The merge of the handler keeps the market items in order, one
    output per item, and attaches to each the last additional entry
    whose [insCode] is that item's [insCode] as a string (an entry whose
    [insCode] is an integer or [null] never matches), or [None]; an
    entry without an ["insCode"] key makes the whole handler fail
    ([KeyError], HTTP 500), even when no market item would use it. *)
Theorem merge_additional_last (mw_resp : MarketWatchResponse) (entries : list adict) :
  ((forall item, In item entries -> exists v, adict_index item "insCode" = Ok v) ->
   merge_additional mw_resp (APDict (Some entries)) =
     Ok (map (fun x => (x, last_additional x.(insCode) entries)) mw_resp)) /\
  (Exists (fun item => adict_index item "insCode" = Raise) entries ->
   merge_additional mw_resp (APDict (Some entries)) = Raise).
Proof. exact (merge_additional_core mw_resp entries). Qed.

(** In the handler's Redis block, a cached snapshot that fails to decode
    also throws away a good cached additional blob: the response is the
    one the handler gives when the additional key is missing, so the
    additional data is fetched (open) or read from the database
    (closed).  When the snapshot decodes and the additional blob is a
    dict, both cached values are used and nothing is fetched or read:
    the response is built from their merge. *)
Theorem snapshot_error_drops_additional (tehran_offset : Z -> Z)
    (decode_snapshot : string -> result MarketWatchResponse)
    (validate_items : list dict -> result MarketWatchResponse)
    (decode_additional : string -> result add_payload)
    (response : Type) (make_response : list (MarketWatchItem * option adict) -> result response)
    (mw_blob : string) (add_get : cache_get) (now1 now2 : datetime)
    (segments : list (string * http_outcome)) (fetch_additional : result (list adict))
    (db : table) (adb : list additional_row) :
  mw_blob <> ""%string ->
  (decode_snapshot mw_blob = Raise ->
   get_market_watch_with_additional_data tehran_offset decode_snapshot validate_items
     decode_additional response make_response true (CacheValue mw_blob) add_get now1 now2 segments
     fetch_additional db adb =
   get_market_watch_with_additional_data tehran_offset decode_snapshot validate_items
     decode_additional response make_response true (CacheValue mw_blob) CacheNone now1 now2 segments
     fetch_additional db adb) /\
  (forall r additional_blob entries,
   decode_snapshot mw_blob = Ok r -> additional_blob <> ""%string ->
   decode_additional additional_blob = Ok (APDict entries) ->
   get_market_watch_with_additional_data tehran_offset decode_snapshot validate_items
     decode_additional response make_response true (CacheValue mw_blob) (CacheValue additional_blob)
     now1 now2 segments fetch_additional db adb =
   (merged_items <- merge_additional r (APDict entries) ;; make_response merged_items)).
Proof.
  intro Hne. unfold get_market_watch_with_additional_data, redis_reads. simpl.
  destruct (String.eqb_spec mw_blob "") as [E|_]; [contradiction|].
  split.
  - intro Hd. rewrite Hd. destruct add_get; reflexivity.
  - intros r ab entries Hd Hab Hda. rewrite Hd.
    destruct (String.eqb_spec ab "") as [E|_]; [contradiction|]. rewrite Hda. reflexivity.
Qed.

Lemma snapshot_error_drops_additional_witness :
  let dec_add := fun (_ : string) => Ok (APDict (Some [[("insCode"%string, AText "IRO1")]])) in
  "{bad"%string <> ""%string /\
  get_market_watch_with_additional_data tehran_fixed_offset (fun _ => Raise) (fun _ => Ok [])
     dec_add _ Ok true (CacheValue "{bad") (CacheValue "{}") (Naive 0) (Naive 0) [] Raise [] [] =
  get_market_watch_with_additional_data tehran_fixed_offset (fun _ => Raise) (fun _ => Ok [])
     dec_add _ Ok true (CacheValue "{bad") CacheNone (Naive 0) (Naive 0) [] Raise [] [].
Proof.
  intros dec_add. split; [discriminate|].
  apply (proj1 (snapshot_error_drops_additional tehran_fixed_offset (fun _ => Raise) (fun _ => Ok [])
           dec_add _ Ok "{bad" (CacheValue "{}") (Naive 0) (Naive 0) [] Raise [] []
           ltac:(discriminate))).
  reflexivity.
Defined.

Lemma additional_rows_have_key (adb : list additional_row) :
  forall item, In item (get_additional_data_from_db adb) ->
  exists v, adict_index item "insCode" = Ok v.
Proof.
  intros item Hin. unfold get_additional_data_from_db in Hin.
  apply in_map_iff in Hin. destruct Hin as (r & <- & _).
  exists (a_insCode r). reflexivity.
Qed.

(** With the market closed at both checks and nothing cached, the
    handler answers from the two tables: the response is built from the
    stored market items in order, each with the last stored additional
    row carrying its [insCode]; the merge itself never raises on rows
    read from the table, so the handler raises only when reading
    [instruments] raises or the response class rejects the items. *)
Theorem closed_miss_merges_tables (tehran_offset : Z -> Z)
    (decode_snapshot : string -> result MarketWatchResponse)
    (validate_items : list dict -> result MarketWatchResponse)
    (decode_additional : string -> result add_payload)
    (response : Type) (make_response : list (MarketWatchItem * option adict) -> result response)
    (redis_up : bool) (mw_get add_get : cache_get) (now1 now2 : datetime)
    (segments : list (string * http_outcome)) (fetch_additional : result (list adict))
    (db : table) (adb : list additional_row) :
  is_market_open tehran_offset now1 = false -> is_market_open tehran_offset now2 = false ->
  snapshot_cache_miss redis_up mw_get -> snapshot_cache_miss redis_up add_get ->
  get_market_watch_with_additional_data tehran_offset decode_snapshot validate_items
    decode_additional response make_response redis_up mw_get add_get now1 now2 segments
    fetch_additional db adb =
  match get_market_watch_from_db db with
  | Ok mw =>
      make_response
        (map (fun x => (x, last_additional x.(insCode) (get_additional_data_from_db adb))) mw)
  | Raise => Raise
  end.
Proof.
  intros H1 H2 Hm Ha. unfold get_market_watch_with_additional_data.
  assert (Hr : redis_reads decode_snapshot decode_additional redis_up mw_get add_get = (None, None)).
  { unfold redis_reads.
    destruct redis_up; [|reflexivity].
    destruct Hm as [Hm|[-> | ->]]; [discriminate| |reflexivity];
      (destruct Ha as [Ha|[-> | ->]]; [discriminate|reflexivity|reflexivity]). }
  rewrite Hr, H1, H2.
  destruct (get_market_watch_from_db db) as [mw|]; [|reflexivity].
  rewrite (proj1 (merge_additional_core mw _)); [reflexivity|]. apply additional_rows_have_key.
Qed.

Lemma closed_miss_merges_tables_witness :
  let db := [row_of_item "2024-01-01T12:30:00" (sample_item "IRO1" 1 100.0)] in
  let adb := [mkAddRow (AText "IRO1") [AInt 3] "2024-01-01T12:30:00"] in
  is_market_open tehran_fixed_offset (Naive 0) = false /\
  snapshot_cache_miss false CacheNone /\
  get_market_watch_with_additional_data tehran_fixed_offset (fun _ => Raise) (fun _ => Ok [])
    (fun _ => Raise) _ Ok false CacheNone CacheNone (Naive 0) (Naive 0) [] Raise db adb =
  match get_market_watch_from_db db with
  | Ok mw => Ok (map (fun x => (x, last_additional x.(insCode) (get_additional_data_from_db adb))) mw)
  | Raise => Raise
  end.
Proof.
  intros db adb. split; [vm_compute; reflexivity|split; [left; reflexivity|]].
  apply (closed_miss_merges_tables tehran_fixed_offset (fun _ => Raise) (fun _ => Ok [])
           (fun _ => Raise) _ Ok false CacheNone CacheNone (Naive 0) (Naive 0) [] Raise db adb);
    [vm_compute; reflexivity|vm_compute; reflexivity|left; reflexivity|left; reflexivity].
Defined.

(* ------------------------------------------------------------------ *)
(** ** The Redis backfill and the price stream *)

Lemma string_length_app (a b : string) : String.length (a ++ b) = (String.length a + String.length b)%nat.
Proof. induction a as [|x a IH]; simpl; [reflexivity|rewrite IH; reflexivity]. Qed.

Lemma string_app_inv_r (a b c : string) : (a ++ c = b ++ c)%string -> a = b.
Proof.
  revert b; induction a as [|x a IH]; intros b H; destruct b as [|y b]; simpl in H.
  - reflexivity.
  - exfalso. apply (f_equal String.length) in H. simpl in H. rewrite string_length_app in H. lia.
  - exfalso. apply (f_equal String.length) in H. simpl in H. rewrite string_length_app in H. lia.
  - inversion H. f_equal. apply IH. assumption.
Qed.

Lemma pdv_key_inj (a b : string) :
  String.eqb ("mw:inst:" ++ a ++ ":pdv") ("mw:inst:" ++ b ++ ":pdv") = String.eqb a b.
Proof.
  destruct (String.eqb_spec a b) as [->|Hab]; [apply String.eqb_refl|].
  apply String.eqb_neq. intro H. simpl in H. inversion H as [H']. apply Hab.
  exact (string_app_inv_r _ _ _ H').
Qed.

Lemma last_with_fold_some (code : string) (l : MarketWatchResponse) (y : MarketWatchItem) :
  exists y', fold_left (fun acc y => if String.eqb y.(insCode) code then Some y else acc) l (Some y)
             = Some y'.
Proof.
  revert y; induction l as [|x l IH]; intro y; simpl; [exists y; reflexivity|].
  destruct (String.eqb (insCode x) code); apply IH.
Qed.

Lemma backfill_fold_get (float_str : float -> string) (mw : MarketWatchResponse) (s : store) (code : string) :
  fold_left (fun s it => store_set s ("mw:inst:" ++ it.(insCode) ++ ":pdv") (float_str it.(pdv)))
    mw s ("mw:inst:" ++ code ++ ":pdv")%string =
  match last_with code mw with
  | Some y => Some (float_str y.(pdv))
  | None => s ("mw:inst:" ++ code ++ ":pdv")%string
  end.
Proof.
  unfold last_with.
  enough (H : forall (s : store) (acc : option MarketWatchItem),
    (forall y, acc = Some y -> s ("mw:inst:" ++ code ++ ":pdv")%string = Some (float_str y.(pdv))) ->
    fold_left (fun s it => store_set s ("mw:inst:" ++ it.(insCode) ++ ":pdv") (float_str it.(pdv)))
      mw s ("mw:inst:" ++ code ++ ":pdv")%string =
    match fold_left (fun acc y => if String.eqb y.(insCode) code then Some y else acc) mw acc with
    | Some y => Some (float_str y.(pdv))
    | None => s ("mw:inst:" ++ code ++ ":pdv")%string
    end) by (apply H; discriminate).
  induction mw as [|it mw IH]; intros s0 acc Hacc; cbn [fold_left].
  - destruct acc as [y|]; [apply Hacc; reflexivity|reflexivity].
  - destruct (String.eqb_spec (insCode it) code) as [E|E].
    + rewrite (IH _ (Some it)).
      * destruct (last_with_fold_some code mw it) as (y' & Ey). rewrite Ey. reflexivity.
      * intros y Hy. inversion Hy; subst. unfold store_set.
        rewrite pdv_key_inj, String.eqb_refl. reflexivity.
    + rewrite (IH _ acc).
      * destruct (fold_left _ mw acc); [reflexivity|].
        unfold store_set. rewrite pdv_key_inj.
        destruct (String.eqb_spec code (insCode it)); [congruence|reflexivity].
      * intros y Hy. unfold store_set. rewrite pdv_key_inj.
        destruct (String.eqb_spec code (insCode it)); [congruence|apply Hacc, Hy].
Qed.

Lemma backfill_pdv_key (float_str : float -> string) (dumps_snapshot : MarketWatchResponse -> string)
    (redis_up : bool) (f : backfill_fault) (mw : MarketWatchResponse) (s : store) (code : string) :
  _backfill_snapshot_async float_str dumps_snapshot redis_up f mw s ("mw:inst:" ++ code ++ ":pdv")%string =
  if redis_up && match f with BNoFault => true | _ => false end then
    match last_with code mw with
    | Some y => Some (float_str y.(pdv))
    | None => s ("mw:inst:" ++ code ++ ":pdv")%string
    end
  else s ("mw:inst:" ++ code ++ ":pdv")%string.
Proof.
  unfold _backfill_snapshot_async. destruct redis_up; [|reflexivity].
  destruct f; cbn [negb andb]; [| reflexivity |].
  - rewrite backfill_fold_get. destruct (last_with code mw); [reflexivity|].
    unfold store_set. reflexivity.
  - unfold store_set. reflexivity.
Qed.

(** A closed-market tick right after [_backfill_snapshot_async] of a
    snapshot: for an [insCode] of the snapshot that [int()] accepts it
    sends the [pdv] of its last record there, read back from the ["pdv"]
    key, when [float(str(pdv))] gives the value back; for a code not in the
    snapshot the backfill (complete, failed or skipped) leaves that key
    as it was, so the tick sends what it would have sent before, a
    value cached from an earlier snapshot included. *)
Theorem backfill_then_closed_tick (float_str : float -> string)
    (dumps_snapshot : MarketWatchResponse -> string) (parse_float : string -> option float)
    (parse_int : string -> option Z)
    (mw : MarketWatchResponse) (s : store) (code : string) (price : price_outcome) (db : table) :
  (forall k y, parse_int code = Some k ->
   last_with code mw = Some y -> parse_float (float_str y.(pdv)) = Some y.(pdv) ->
   price_tick parse_float parse_int false true
     (cache_of (_backfill_snapshot_async float_str dumps_snapshot true BNoFault mw s)) code price db
   = Ok y.(pdv)) /\
  (last_with code mw = None -> forall redis_up f,
   price_tick parse_float parse_int false true
     (cache_of (_backfill_snapshot_async float_str dumps_snapshot redis_up f mw s)) code price db
   = price_tick parse_float parse_int false true (cache_of s) code price db).
Proof.
  split.
  - intros k y Hk Hy Hp. unfold price_tick, cached_float, cache_of. rewrite Hk.
    rewrite backfill_pdv_key. simpl andb. cbv iota. rewrite Hy. simpl. rewrite Hp. reflexivity.
  - intros Hn redis_up f. unfold price_tick, cached_float, cache_of.
    destruct (parse_int code); [|reflexivity].
    rewrite backfill_pdv_key, Hn.
    destruct (redis_up && _); reflexivity.
Qed.

(* ------------------------------------------------------------------ *)
(** ** [_save_additional_data_if_valid] *)

Lemma save_additional_if_valid_nonempty (int_of_text : string -> option Z)
    (fetched : result (list adict)) (f : add_fault) (now_iso : string) (adb : list additional_row) :
  adb <> [] -> _save_additional_data_if_valid int_of_text fetched f now_iso adb <> [].
Proof.
  intro Hne. unfold _save_additional_data_if_valid.
  destruct fetched as [l|]; [|exact Hne].
  destruct l as [|d l]; [exact Hne|].
  destruct (save_additional_rows int_of_text f now_iso (d :: l) adb ltac:(discriminate))
    as [(_ & _ & E)|(_ & E)]; rewrite E; simpl; [discriminate|exact Hne].
Qed.

(** Once the [additional_data] table holds rows, no sequence of passes
    of [_save_additional_data_if_valid] empties it: a failed or timed-out
    fetch, an empty upstream list and a failed write all leave it as it
    was, and a committed write stores a non-empty list. *)
Theorem additional_table_never_emptied (int_of_text : string -> option Z)
    (passes : list (result (list adict) * add_fault * string)) (adb : list additional_row) :
  adb <> [] ->
  fold_left (fun t p => let '(fetched, f, now_iso) := p in
               _save_additional_data_if_valid int_of_text fetched f now_iso t) passes adb <> [].
Proof.
  revert adb; induction passes as [|((fetched, f), now_iso) passes IH]; intros adb Hne; simpl;
    [exact Hne|].
  apply IH, save_additional_if_valid_nonempty, Hne.
Qed.

Lemma additional_table_never_emptied_witness :
  let adb := [mkAddRow (AText "IRO1") [] "2024-01-01"] in
  adb <> [] /\
  fold_left (fun t p => let '(fetched, f, now_iso) := p in
               _save_additional_data_if_valid (fun _ => None) fetched f now_iso t)
    [(Ok [], ANoFault, "2024-01-02"%string); (Raise, ANoFault, "2024-01-03"%string);
     (Ok [[("insCode"%string, AText "A")]; [("insCode"%string, AText "A")]], ANoFault, "2024-01-04"%string)]
    adb <> [].
Proof.
  intros adb. split; [discriminate|].
  apply (additional_table_never_emptied (fun _ => None)). discriminate.
Defined.

Lemma fold_upsert_nonnil {A : Type} (key : A -> string) (l t : list A) :
  l <> [] \/ t <> [] -> fold_left (upsert_by key) l t <> [].
Proof.
  revert t; induction l as [|y l IH]; intros t H; simpl.
  - destruct H as [H|H]; [congruence|exact H].
  - apply IH. right. destruct t as [|r0 t]; simpl; [discriminate|].
    destruct (String.eqb (key r0) (key y)); discriminate.
Qed.

(** A pass of [_save_snapshot_if_valid] never leaves an empty
    [instruments] table behind a non-empty one: a failed fetch or
    validation, an empty snapshot (which [save_market_watch_data]
    answers with 0 before its [DELETE]) and a failed write all keep the
    table. *)
Theorem snapshot_table_never_emptied (validate_items : list dict -> result MarketWatchResponse)
    (i : pass_inputs) (db : table) :
  db <> [] -> _save_snapshot_if_valid validate_items i db <> [].
Proof.
  intro Hne. unfold _save_snapshot_if_valid.
  destruct (fetch_merged_data (pi_segments i)) as [items|]; [|exact Hne].
  destruct (validate_items items) as [mw|]; [|exact Hne].
  destruct mw as [|y mw]; [unfold save_market_watch_data; simpl; exact Hne|].
  destruct (save_outcome (pi_fault i) (pi_clock i) (y :: mw) db) as [E|E]; rewrite E; [exact Hne|].
  unfold replace_all, upsert_row. apply fold_upsert_nonnil. left; discriminate.
Qed.

Lemma snapshot_table_never_emptied_witness :
  let db := [row_of_item "2024-01-01T12:30:00" (sample_item "IRO1" 1 100.0)] in
  db <> [] /\
  _save_snapshot_if_valid (fun _ => Ok []) (mkPass [("stock"%string, HttpOk None)] NoFault (fun _ => "2024-01-02"%string)) db <> [].
Proof.
  intros db. split; [discriminate|].
  apply (snapshot_table_never_emptied (fun _ => Ok [])). discriminate.
Defined.

(* ------------------------------------------------------------------ *)
(** ** [get_database_stats] *)

Lemma length_upsert_by {A : Type} (key : A -> string) (t : list A) (r : A) :
  (length (upsert_by key t r) <= S (length t))%nat.
Proof.
  induction t as [|r0 t IH]; simpl; [lia|].
  destruct (String.eqb (key r0) (key r)); simpl; lia.
Qed.

Lemma length_fold_upsert {A : Type} (key : A -> string) (l t : list A) :
  (length (fold_left (upsert_by key) l t) <= length l + length t)%nat.
Proof.
  revert t; induction l as [|y l IH]; intro t; simpl; [lia|].
  specialize (IH (upsert_by key t y)). pose proof (length_upsert_by key t y). lia.
Qed.

Lemma fold_latest_max (m : string) (t : table) (acc : string) :
  Forall (fun r => String.leb r.(r_updated_at) m = true) t ->
  String.leb acc m = true -> (acc = m \/ exists r, In r t /\ r.(r_updated_at) = m) ->
  fold_left (fun latest r => if String.leb latest r.(r_updated_at) then r.(r_updated_at) else latest)
    t acc = m.
Proof.
  revert acc; induction t as [|r t IH]; intros acc Hf Ha Hm; simpl.
  - destruct Hm as [Hm|(r & [] & _)]; exact Hm.
  - pose proof (Forall_inv Hf) as Hr. pose proof (Forall_inv_tail Hf) as Hf'. simpl in Hr.
    apply IH; [exact Hf'| |].
    + destruct (String.leb acc (r_updated_at r)); assumption.
    + destruct Hm as [->|(r' & [<-|Hin] & E)].
      * case_eq (String.leb m (r_updated_at r)); intro E; [|left; reflexivity].
        left. apply String.leb_antisym; assumption.
      * left. rewrite E, Ha. reflexivity.
      * right. exists r'. split; [exact Hin|exact E].
Qed.

Lemma enum_from_app {A : Type} (i : nat) (l : list A) (x : A) :
  enum_from i (l ++ [x]) = enum_from i l ++ [(i + length l, x)]%nat.
Proof.
  revert i; induction l as [|y l IH]; intro i; simpl; [rewrite Nat.add_0_r; reflexivity|].
  rewrite IH, Nat.add_succ_r. reflexivity.
Qed.

(** The last record of a snapshot is always one the upsert keeps. *)
Lemma last_record_kept (d : MarketWatchResponse) (y : MarketWatchItem) :
  In (length d, y) (kept_records (d ++ [y])).
Proof.
  assert (E : find (fun p => String.eqb (snd p).(insCode) y.(insCode)) (kept_records (d ++ [y]))
              = Some (length d, y)).
  { unfold kept_records.
    rewrite (find_fold_upsert (fun p : nat * MarketWatchItem => (snd p).(insCode))).
    rewrite enum_from_app, fold_left_app. simpl. rewrite String.eqb_refl. reflexivity. }
  apply find_some in E. exact (proj1 E).
Qed.

(** After a write that commits, [get_database_stats] reports one
    record per distinct [insCode] of the snapshot, never more than the
    count the write returned and exactly that count when the [insCode]s
    are distinct.  Each row is stamped with its own [datetime.now()];
    when the clock never goes back (in SQLite's text order), the
    [latest_updated_at] reported is the stamp of the snapshot's last
    record, the one the last row written carries. *)
Theorem stats_after_save (f : fault) (clock : nat -> string) (data : MarketWatchResponse)
    (db t' : table) (n : Z) :
  (forall i j, (i <= j)%nat -> String.leb (clock i) (clock j) = true) ->
  save_market_watch_data f clock data db = (Ok n, t') -> n <> 0 ->
  snd (get_database_stats t') = Some (clock (length data - 1)%nat) /\
  fst (get_database_stats t') = Z.of_nat (length (fold_left (upsert_by insCode) data [])) /\
  fst (get_database_stats t') <= n /\
  (NoDup (map insCode data) -> fst (get_database_stats t') = n).
Proof.
  intros Hclock Hs Hn.
  assert (Hn' : n = Z.of_nat (length data)).
  { unfold save_market_watch_data in Hs.
    destruct (Z.of_nat (length data) =? 0); [inversion Hs; congruence|].
    destruct f as [| | | |k|]; simpl in Hs; try (inversion Hs; congruence).
    - rewrite executemany_none in Hs. inversion Hs; reflexivity.
    - rewrite executemany_some in Hs. destruct (Nat.ltb k _); inversion Hs; congruence. }
  assert (Ht : t' = map (stamped_row clock) (kept_records data)).
  { rewrite (save_committed f clock data db t' n Hs Hn). apply replace_all_items. }
  assert (Hlen : length (kept_records data) = length (fold_left (upsert_by insCode) data [])).
  { rewrite <- kept_records_snd, length_map. reflexivity. }
  unfold get_database_stats. rewrite Ht, length_map, Hlen. simpl fst; simpl snd.
  split; [|split; [reflexivity|split]].
  - assert (Hd : data <> []) by (intros ->; simpl in Hn'; congruence).
    destruct (exists_last Hd) as (d & y & ->).
    rewrite length_app, Nat.add_sub. simpl length.
    pose proof (last_record_kept d y) as Hk.
    assert (Hall : Forall (fun r => String.leb r.(r_updated_at) (clock (length d)) = true)
                     (map (stamped_row clock) (kept_records (d ++ [y])))).
    { apply Forall_forall. intros r Hr. apply in_map_iff in Hr. destruct Hr as (p & <- & Hp).
      unfold kept_records in Hp. apply in_fold_upsert in Hp. destruct Hp as [Hp|[]].
      apply in_enum_from in Hp. rewrite length_app in Hp. simpl in Hp.
      apply Hclock. lia. }
    destruct (kept_records (d ++ [y])) as [|p l] eqn:Ek; [destruct Hk|].
    simpl map in Hall |- *. cbv beta iota. f_equal.
    pose proof (Forall_inv Hall) as H0. pose proof (Forall_inv_tail Hall) as Hl.
    apply fold_latest_max; [exact Hl|exact H0|].
    destruct Hk as [->|Hk]; [left; reflexivity|].
    right. exists (stamped_row clock (length d, y)). split; [|reflexivity].
    apply in_map, Hk.
  - pose proof (length_fold_upsert insCode data []). simpl in H. lia.
  - intro Hnd. rewrite (fold_upsert_distinct insCode data []) by exact Hnd. simpl. congruence.
Qed.

Lemma stats_after_save_witness :
  let clock := fun i : nat => if Nat.eqb i 0 then "2024-01-01T12:30:00"%string
                              else "2024-01-01T12:30:01"%string in
  let data := [sample_item "IRO1" 1 100.0; sample_item "IRO1" 2 200.0] in
  let t' := snd (save_market_watch_data NoFault clock data []) in
  (forall i j, (i <= j)%nat -> String.leb (clock i) (clock j) = true) /\
  save_market_watch_data NoFault clock data [] = (Ok 2, t') /\ (2 <> 0) /\
  snd (get_database_stats t') = Some "2024-01-01T12:30:01"%string /\
  fst (get_database_stats t') = Z.of_nat (length (fold_left (upsert_by insCode) data [])) /\
  fst (get_database_stats t') <= 2 /\
  (NoDup (map insCode data) -> fst (get_database_stats t') = 2).
Proof.
  intros clock data t'.
  assert (Hc : forall i j, (i <= j)%nat -> String.leb (clock i) (clock j) = true).
  { intros i j Hij. unfold clock.
    destruct (Nat.eqb_spec i 0), (Nat.eqb_spec j 0); try lia; vm_compute; reflexivity. }
  split; [exact Hc|]. split; [vm_compute; reflexivity|split; [lia|]].
  apply (stats_after_save NoFault clock data [] t' 2 Hc); [vm_compute; reflexivity|lia].
Defined.
